(** * code_quality_agent: sandboxed reads, header rules, doc generation, pipeline

    A shallow embedding of the Python modules [agent/fs_ro.py],
    [agent/header_rules.py], [agent/docgen.py] and [agent/graph_agent.py],
    followed by the properties proved about them.

    Conventions of the embedding.
    - A Python [str] is the list of its Unicode code points ([pystr]).
    - A raised exception is the [Err] branch of [result]; the exception
      classes and raise sites of the modules are the constructors of [exn].
    - A [pathlib.Path] is a flag (absolute or not) and its list of parts.
    - The file system is a finite tree of directories, regular files and
      symbolic links; it is only read.  What the pipeline writes goes to a
      separate list of written files. *)

From Stdlib Require Import ZArith NArith List String Ascii Bool Lia.
From Stdlib Require Import DecimalString SpecFloat.
From stdpp Require Import base gmap list.
Import ListNotations.

Open Scope N_scope.

(* ================================================================== *)
(** * Part I: the embedding                                            *)
(* ================================================================== *)

(** ** Python strings *)

Definition pystr := list N.

(** [u "abc"] is the Python string literal ["abc"] (ASCII literals only). *)
Definition u (s : string) : pystr :=
  List.map N_of_ascii (list_ascii_of_string s).

Arguments u : simpl never.

Definition char_eqb (a b : N) : bool := N.eqb a b.

Fixpoint str_eqb (a b : pystr) : bool :=
  match a, b with
  | [], [] => true
  | x :: a', y :: b' => char_eqb x y && str_eqb a' b'
  | _, _ => false
  end.

(** [str.isspace] on one character, which is also what [\s] matches in a
    [re] pattern over [str]: the code points Python classifies as
    whitespace. *)
Definition py_isspace (c : N) : bool :=
  ((9 <=? c) && (c <=? 13)) || ((28 <=? c) && (c <=? 32))
  || (c =? 133) || (c =? 160) || (c =? 5760)
  || ((8192 <=? c) && (c <=? 8202))
  || (c =? 8232) || (c =? 8233) || (c =? 8239) || (c =? 8287) || (c =? 12288).

(** The line boundaries of [str.splitlines]. *)
Definition is_linebreak (c : N) : bool :=
  ((10 <=? c) && (c <=? 13)) || ((28 <=? c) && (c <=? 30))
  || (c =? 133) || (c =? 8232) || (c =? 8233).

Definition LF : N := 10.
Definition CR : N := 13.

Fixpoint drop_while (p : N -> bool) (s : pystr) : pystr :=
  match s with
  | c :: s' => if p c then drop_while p s' else s
  | [] => []
  end.

Fixpoint take_while (p : N -> bool) (s : pystr) : pystr :=
  match s with
  | c :: s' => if p c then c :: take_while p s' else []
  | [] => []
  end.

Definition lstrip (s : pystr) : pystr := drop_while py_isspace s.
Definition rstrip (s : pystr) : pystr := rev (drop_while py_isspace (rev s)).
Definition strip (s : pystr) : pystr := rstrip (lstrip s).

(** [s.startswith(p)]; [after_prefix] also returns what follows. *)
Fixpoint after_prefix (p s : pystr) : option pystr :=
  match p, s with
  | [], _ => Some s
  | x :: p', y :: s' => if char_eqb x y then after_prefix p' s' else None
  | _ :: _, [] => None
  end.

Definition startswith (p s : pystr) : bool :=
  match after_prefix p s with Some _ => true | None => false end.

Definition endswith (p s : pystr) : bool := startswith (rev p) (rev s).

(** [needle in hay]. *)
Fixpoint contains (needle hay : pystr) : bool :=
  startswith needle hay
  || match hay with
     | [] => false
     | _ :: hay' => contains needle hay'
     end.

(** [sep.join(l)]. *)
Fixpoint str_join (sep : pystr) (l : list pystr) : pystr :=
  match l with
  | [] => []
  | [x] => x
  | x :: l' => x ++ sep ++ str_join sep l'
  end.

(** [s.splitlines()]: [cur] is the line being read, reversed.  A ["\r\n"]
    pair is one boundary; a boundary at the very end opens no new line. *)
Fixpoint splitlines_from (cur : pystr) (s : pystr) : list pystr :=
  match s with
  | [] => match cur with [] => [] | _ => [rev cur] end
  | c :: s' =>
      if is_linebreak c then
        match s' with
        | d :: s'' =>
            if (c =? CR) && (d =? LF)
            then rev cur :: splitlines_from [] s''
            else rev cur :: splitlines_from [] s'
        | [] => [rev cur]
        end
      else splitlines_from (c :: cur) s'
  end.

Definition splitlines (s : pystr) : list pystr := splitlines_from [] s.

(** [s.split(sep)] for a one-character separator. *)
Fixpoint split_char_from (sep : N) (cur : pystr) (s : pystr) : list pystr :=
  match s with
  | [] => [rev cur]
  | c :: s' =>
      if char_eqb c sep then rev cur :: split_char_from sep [] s'
      else split_char_from sep (c :: cur) s'
  end.

Definition split_char (sep : N) (s : pystr) : list pystr :=
  split_char_from sep [] s.

(** [l[:n]] for a Python integer [n] (a negative [n] counts from the end). *)
Definition slice_to {A} (n : Z) (l : list A) : list A :=
  if (0 <=? n)%Z then firstn (Z.to_nat n) l
  else firstn (length l - Z.to_nat (- n)) l.

(** [l[k:]] for a Python integer [k] (a negative [k] counts from the end;
    [l[-0:]] is [l[0:]], the whole list). *)
Definition slice_from {A} (k : Z) (l : list A) : list A :=
  if (0 <=? k)%Z then skipn (Z.to_nat k) l
  else skipn (length l - Z.to_nat (- k)) l.

(** [str(n)] for an integer. *)
Definition str_of_Z (n : Z) : pystr := u (NilZero.string_of_int (Z.to_int n)).

Definition is_nil {A} (l : list A) : bool :=
  match l with [] => true | _ => false end.

(** ** Exceptions and results *)

Record Path := mkPath { absolute : bool; parts : list pystr }.

Inductive value_error :=
| FileTooLarge (size : Z) (p : Path)
| EmptySource (relpath : Path)
| NotRelative (p : Path)
| NotANumber.

Inductive runtime_error :=
| SymlinkLoop
| NoHomeDirectory
| LLMInvocationFailed
| EmptyDocumentation.

Inductive exn :=
| SandboxViolation (resolved : Path)
| FileNotFoundError (p : Path)
| ValueError (why : value_error)
| RuntimeError (why : runtime_error)
| KeyError (key : pystr)
| TypeError
| AttributeError
| OverflowError
| UnicodeEncodeError.

Inductive result (A : Type) :=
| Ok (a : A)
| Err (e : exn).
Arguments Ok {A} a.
Arguments Err {A} e.

Definition bind {A B} (r : result A) (k : A -> result B) : result B :=
  match r with
  | Ok a => k a
  | Err e => Err e
  end.

Notation "'let!' x := r 'in' k" := (bind r (fun x => k))
  (at level 10, x name, r at level 200, k at level 200, only parsing).

(** ** agent/header_rules.py *)

Module HeaderRules.

Definition REQUIRED_KEYS : list pystr :=
  [ u "File name:"; u "Author:"; u "Date last modified:";
    u "Python Version:"; u "Description:"; u "License:" ].

Record HeaderCheckResult := mkHeaderCheckResult {
  ok : bool;
  missing_keys : list pystr;
  message : pystr
}.

(** The pattern [Description:\s*(.+)] as [re.search] runs it.

    [re_star p k] is the greedy, backtracking [p*] followed by the rest of
    the pattern [k]: the longest run is tried first, then shorter ones.
    [re_dot_plus] is the final group [(.+)]: the longest non-empty run of
    characters other than a newline.  [re_search_description] tries the
    start positions from left to right and returns group 1 of the first
    match. *)
Fixpoint re_star {A} (p : N -> bool) (k : pystr -> option A) (s : pystr)
  : option A :=
  match s with
  | c :: s' =>
      if p c then
        match re_star p k s' with
        | Some r => Some r
        | None => k s
        end
      else k s
  | [] => k s
  end.

Definition re_dot_plus (s : pystr) : option pystr :=
  match take_while (fun c => negb (c =? LF)) s with
  | [] => None
  | g => Some g
  end.

Definition re_match_description (s : pystr) : option pystr :=
  match after_prefix (u "Description:") s with
  | Some rest => re_star py_isspace re_dot_plus rest
  | None => None
  end.

Fixpoint re_search_description (s : pystr) : option pystr :=
  match re_match_description s with
  | Some g => Some g
  | None =>
      match s with
      | [] => None
      | _ :: s' => re_search_description s'
      end
  end.

(** [repr] of a list of header keys; the keys of [REQUIRED_KEYS] hold no
    quote, backslash or control character, so [repr] of one is the key
    between single quotes. *)
Definition repr_keys (ks : list pystr) : pystr :=
  u "[" ++ str_join (u ", ") (List.map (fun k => u "'" ++ k ++ u "'") ks) ++ u "]".

Definition msg_missing (top_lines : Z) (missing : list pystr) : pystr :=
  u "Missing header keys in first " ++ str_of_Z top_lines ++ u " lines: "
    ++ repr_keys missing.

Definition msg_empty_description : pystr :=
  u "Description field is present but empty.".

Definition msg_ok : pystr := u "Header looks OK.".

(** The text block the checker inspects. *)
Definition head_of (source : pystr) (top_lines : Z) : pystr :=
  str_join [LF] (slice_to top_lines (splitlines source)).

Definition check_header_top (source : pystr) (top_lines : Z) : HeaderCheckResult :=
  let head := head_of source top_lines in
  let missing := List.filter (fun k => negb (contains k head)) REQUIRED_KEYS in
  if negb (is_nil missing) then
    mkHeaderCheckResult false missing (msg_missing top_lines missing)
  else if contains (u "Description:") head then
    match re_search_description head with
    | Some g =>
        if is_nil (strip g)
        then mkHeaderCheckResult false [] msg_empty_description
        else mkHeaderCheckResult true [] msg_ok
    | None => mkHeaderCheckResult false [] msg_empty_description
    end
  else mkHeaderCheckResult true [] msg_ok.

(** [check_header(source)] with the default [top_lines=40]. *)
Definition check_header (source : pystr) : HeaderCheckResult :=
  check_header_top source 40.

End HeaderRules.

(** ** pathlib paths *)

Definition SLASH : N := 47.
Definition TILDE : N := 126.

(** [Path(s)]: the parts are the segments between slashes, the empty
    segments and ["."] dropped. *)
Definition is_real_segment (c : pystr) : bool :=
  negb (is_nil c) && negb (str_eqb c (u ".")).

Definition Path_of_str (s : pystr) : Path :=
  mkPath (startswith [SLASH] s) (List.filter is_real_segment (split_char SLASH s)).

(** [str(p)]. *)
Definition path_str (p : Path) : pystr :=
  if absolute p then SLASH :: str_join [SLASH] (parts p)
  else match parts p with
       | [] => u "."
       | ps => str_join [SLASH] ps
       end.

(** [a / b]. *)
Definition path_join (a b : Path) : Path :=
  if absolute b then b else mkPath (absolute a) (parts a ++ parts b).

Fixpoint strip_parts (pre l : list pystr) : option (list pystr) :=
  match pre, l with
  | [], _ => Some l
  | x :: pre', y :: l' => if str_eqb x y then strip_parts pre' l' else None
  | _ :: _, [] => None
  end.

(** [p.relative_to(other)]; [None] stands for its [ValueError]. *)
Definition relative_to (p other : Path) : option Path :=
  if Bool.eqb (absolute p) (absolute other) then
    match strip_parts (parts other) (parts p) with
    | Some rest => Some (mkPath false rest)
    | None => None
    end
  else None.

Definition is_relative_to (p other : Path) : bool :=
  match relative_to p other with Some _ => true | None => false end.

(** Order of paths ([sorted] compares the tuples of parts, strings by code
    point). *)
Fixpoint str_ltb (a b : pystr) : bool :=
  match a, b with
  | _, [] => false
  | [], _ :: _ => true
  | x :: a', y :: b' => (x <? y) || ((x =? y) && str_ltb a' b')
  end.

Fixpoint parts_ltb (a b : list pystr) : bool :=
  match a, b with
  | _, [] => false
  | [], _ :: _ => true
  | x :: a', y :: b' => str_ltb x y || (str_eqb x y && parts_ltb a' b')
  end.

(** [p.parts]: the root, when there is one, is the first part. *)
Definition py_parts (p : Path) : list pystr :=
  (if absolute p then [[SLASH]] else []) ++ parts p.

Definition path_ltb (p q : Path) : bool := parts_ltb (py_parts p) (py_parts q).

Fixpoint insert_sorted (x : Path) (l : list Path) : list Path :=
  match l with
  | [] => [x]
  | y :: l' => if path_ltb y x then y :: insert_sorted x l' else x :: l
  end.

(** [sorted(l)] (stable). *)
Definition sorted (l : list Path) : list Path :=
  fold_right insert_sorted [] l.

(** ** The file system the sandbox reads *)

(** A regular file is kept as its size in bytes and the text its bytes
    decode to ([data.decode("utf-8", errors="replace")], which never
    fails). *)
#[warnings="-register-all"]
Inductive node :=
| File (st_size : Z) (text : pystr)
| Dir (entries : list (pystr * node))
| Symlink (target : Path).

Record World := mkWorld {
  tree : node;                          (* the node at "/" *)
  cwd : list pystr;                     (* parts of the working directory *)
  symlink_budget : nat;                 (* nesting of links before ELOOP *)
  gethomedir : pystr -> option Path     (* home of "~user" ("~" is user "") *)
}.

Fixpoint assoc (name : pystr) (entries : list (pystr * node)) : option node :=
  match entries with
  | [] => None
  | (n, c) :: es => if str_eqb n name then Some c else assoc name es
  end.

(** [os.lstat] along a path that holds no link before its last part. *)
Fixpoint lookup_node (n : node) (ps : list pystr) : option node :=
  match ps with
  | [] => Some n
  | name :: ps' =>
      match n with
      | Dir entries =>
          match assoc name entries with
          | Some c => lookup_node c ps'
          | None => None
          end
      | _ => None
      end
  end.

(** [posixpath._joinrealpath]: [path] is resolved so far, [rest] is still
    to be read; an empty part and ["."] are skipped, [".."] drops the last
    resolved part, a part that is missing is kept unless [strict].  A link
    is resolved by a nested call on its target.  Python finds a loop with
    its table of the links it is resolving; here at most [fuel] calls may
    be nested ([symlink_budget] of the world), and running out is the
    symlink loop. *)
Fixpoint joinrealpath (w : World) (strict : bool) (fuel : nat)
    (path rest : list pystr) {struct fuel} : result (list pystr) :=
  match fuel with
  | O => Err (RuntimeError SymlinkLoop)
  | S fuel' =>
      (fix loop (path rest : list pystr) {struct rest} : result (list pystr) :=
         match rest with
         | [] => Ok path
         | name :: rest' =>
             if is_nil name || str_eqb name (u ".") then loop path rest'
             else if str_eqb name (u "..") then loop (removelast path) rest'
             else
               let newpath := path ++ [name] in
               match lookup_node (tree w) newpath with
               | Some (Symlink target) =>
                   match joinrealpath w strict fuel'
                           (if absolute target then [] else path)
                           (parts target) with
                   | Ok path' => loop path' rest'
                   | Err e => Err e
                   end
               | Some _ => loop newpath rest'
               | None =>
                   if strict then Err (FileNotFoundError (mkPath true newpath))
                   else loop newpath rest'
               end
         end) path rest
  end.

(** [p.resolve(strict)]: always an absolute path; a relative [p] starts
    from the working directory; a symlink loop is a [RuntimeError]. *)
Definition resolve (w : World) (strict : bool) (p : Path) : result Path :=
  let! ps := joinrealpath w strict (S (symlink_budget w))
                (if absolute p then [] else cwd w) (parts p) in
  Ok (mkPath true ps).

(** [p.expanduser()]. *)
Definition expanduser (w : World) (p : Path) : result Path :=
  if absolute p then Ok p
  else
    match parts p with
    | (c :: user) :: rest =>
        if c =? TILDE then
          match gethomedir w user with
          | Some home => Ok (path_join home (mkPath false rest))
          | None => Err (RuntimeError NoHomeDirectory)
          end
        else Ok p
    | _ => Ok p
    end.

(** [root.rglob("*.py")] below the directory node [n] whose parts are
    [here]: every entry whose name ends in [.py], in every directory that
    is reached through directories that are not links. *)
Fixpoint rglob_py (here : list pystr) (n : node) : list (list pystr) :=
  match n with
  | Dir entries =>
      (fix go (es : list (pystr * node)) : list (list pystr) :=
         match es with
         | [] => []
         | (name, child) :: es' =>
             (if endswith (u ".py") name then [here ++ [name]] else [])
             ++ match child with
                | Dir _ => rglob_py (here ++ [name]) child
                | _ => []
                end
             ++ go es'
         end) entries
  | _ => []
  end.

(** ** agent/fs_ro.py *)

Module FsRo.

Record ReadOnlySandboxFS := mkFS { root_dir : Path }.

(** The constructor with its [__post_init__]. *)
Definition new_fs (w : World) (root : Path) : result ReadOnlySandboxFS :=
  let! r0 := expanduser w root in
  let! r := resolve w true r0 in
  Ok (mkFS r).

Definition _resolve_under_root (w : World) (self : ReadOnlySandboxFS)
    (path : Path) : result Path :=
  let candidate :=
    if negb (absolute path) then path_join (root_dir self) path else path in
  let! c := expanduser w candidate in
  let! resolved := resolve w false c in
  if negb (is_relative_to resolved (root_dir self))
  then Err (SandboxViolation resolved)
  else Ok resolved.

Definition list_python_files (w : World) (self : ReadOnlySandboxFS) : list Path :=
  let root := root_dir self in
  match lookup_node (tree w) (parts root) with
  | Some n =>
      sorted (List.map (fun ps => mkPath (absolute root) (parts root ++ ps))
                       (rglob_py [] n))
  | None => []
  end.

(** [read_text]: [p] is resolved, so [exists], [is_file] and [stat] meet
    no link on the way to it. *)
Definition read_text_max (w : World) (self : ReadOnlySandboxFS)
    (rel_or_abs_path : Path) (max_bytes : Z) : result pystr :=
  let! p := _resolve_under_root w self rel_or_abs_path in
  match lookup_node (tree w) (parts p) with
  | Some (File size text) =>
      if (max_bytes <? size)%Z then Err (ValueError (FileTooLarge size p))
      else Ok text
  | _ => Err (FileNotFoundError p)
  end.

(** [read_text(path)] with the default [max_bytes=2_000_000]. *)
Definition read_text (w : World) (self : ReadOnlySandboxFS)
    (rel_or_abs_path : Path) : result pystr :=
  read_text_max w self rel_or_abs_path 2000000.

Definition relpath (w : World) (self : ReadOnlySandboxFS) (abs_path : Path)
  : result Path :=
  let! e := expanduser w abs_path in
  let! abs_resolved := resolve w false e in
  if negb (is_relative_to abs_resolved (root_dir self))
  then Err (SandboxViolation abs_resolved)
  else match relative_to abs_resolved (root_dir self) with
       | Some r => Ok r
       | None => Err (ValueError (NotRelative abs_resolved))
       end.

End FsRo.

(** ** Python values: what a text-generation call may return *)

(** [PObj attrs s r] is any other object (a message of a chat library, a
    float, ...): its attributes, its [str()] and its [repr()].  A [PDict]
    has string keys, in insertion order. *)
#[warnings="-register-all"]
Inductive pyval :=
| PNone
| PBool (b : bool)
| PInt (n : Z)
| PStr (s : pystr)
| PList (items : list pyval)
| PDict (items : list (pystr * pyval))
| PObj (attrs : list (pystr * pyval)) (as_str as_repr : pystr).

Fixpoint assoc_val (k : pystr) (d : list (pystr * pyval)) : option pyval :=
  match d with
  | [] => None
  | (k', v) :: d' => if str_eqb k' k then Some v else assoc_val k d'
  end.

(** [getattr(resp, name, None)]. *)
Definition getattr (resp : pyval) (name : pystr) : pyval :=
  match resp with
  | PObj attrs _ _ =>
      match assoc_val name attrs with Some v => v | None => PNone end
  | _ => PNone
  end.

(** [d.get(k)] and [d[k]]. *)
Definition dict_get (d : list (pystr * pyval)) (k : pystr) : pyval :=
  match assoc_val k d with Some v => v | None => PNone end.

Definition getitem (d : list (pystr * pyval)) (k : pystr) : result pyval :=
  match assoc_val k d with Some v => Ok v | None => Err (KeyError k) end.

Definition is_str (v : pyval) : bool :=
  match v with PStr _ => true | _ => false end.

(** [v == s] for a string [s]. *)
Definition eq_str (v : pyval) (s : pystr) : bool :=
  match v with PStr t => str_eqb t s | _ => false end.

(** [sep.join(vs)], a [TypeError] when an item is not a string. *)
Fixpoint join_vals (sep : pystr) (vs : list pyval) : result pystr :=
  match vs with
  | [] => Ok []
  | [PStr x] => Ok x
  | PStr x :: vs' => let! r := join_vals sep vs' in Ok (x ++ sep ++ r)
  | _ :: _ => Err TypeError
  end.

(** ** agent/docgen_prompt.py *)

Inductive segment :=
| Lit (s : pystr)
| Field (name : pystr).

Definition text_lines (ls : list string) : pystr :=
  str_join [LF] (List.map u ls).

(** [DOC_PROMPT], cut at its three replacement fields. *)
Definition DOC_PROMPT : list segment :=
  [ Lit (text_lines
      [ "";
        "You are a senior Python engineer.";
        "";
        "You must generate documentation for the following Python file.";
        "The user request below specifies what to emphasize. Follow it carefully when relevant.";
        "";
        "IMPORTANT SAFETY RULES:";
        "- Never include secrets, credentials, API keys, tokens, private keys, or passwords.";
        "- If the source contains sensitive-looking values, do not reproduce them. Describe them generically.";
        "";
        "USER REQUEST (high priority):";
        "" ]%string);
    Field (u "request");
    Lit (text_lines
      [ "";
        "";
        "Output format:";
        "- Markdown";
        "- Title: the file path";
        "- Sections:";
        "  - Overview (what it does, in 3-6 bullet points)";
        "  - Public API (functions/classes likely intended for import/use)";
        "  - Key behaviors and edge cases";
        "  - Inputs/outputs and side effects";
        "  - Usage examples (short, realistic)";
        "  - Risks/TODOs (brief)";
        "";
        "Keep it practical and concise.";
        "";
        "FILE PATH: " ]%string);
    Field (u "relpath");
    Lit (text_lines [ ""; ""; "PYTHON SOURCE:"; "```python"; "" ]%string);
    Field (u "source");
    Lit (text_lines [ ""; "```"; "" ]%string) ].

Fixpoint assoc_str (k : pystr) (kw : list (pystr * pystr)) : option pystr :=
  match kw with
  | [] => None
  | (k', v) :: kw' => if str_eqb k' k then Some v else assoc_str k kw'
  end.

(** [template.format] with the keyword arguments [kw]. *)
Fixpoint format (t : list segment) (kw : list (pystr * pystr)) : result pystr :=
  match t with
  | [] => Ok []
  | Lit s :: t' => let! r := format t' kw in Ok (s ++ r)
  | Field name :: t' =>
      match assoc_str name kw with
      | Some v => let! r := format t' kw in Ok (v ++ r)
      | None => Err (KeyError name)
      end
  end.

(** ** Floating point, as far as [int(max_chars * 0.65)] needs it *)

Definition float_of_int (n : Z) : spec_float :=
  binary_normalize 53 1024 n 0 false.

Definition float_mul (x y : spec_float) : spec_float := SFmul 53 1024 x y.

(** The doubles written [0.65] and [0.25]. *)
Definition F0_65 : spec_float := S754_finite false 5854679515581645 (-53).
Definition F0_25 : spec_float := S754_finite false 4503599627370496 (-54).

(** [int(x)]: truncation towards zero. *)
Definition int_of_float (x : spec_float) : result Z :=
  match x with
  | S754_zero _ => Ok 0%Z
  | S754_finite s m e =>
      let a := if (0 <=? e)%Z then Z.shiftl (Z.pos m) e
               else Z.shiftr (Z.pos m) (- e) in
      Ok (if s then (- a)%Z else a)
  | S754_infinity _ => Err OverflowError
  | S754_nan => Err (ValueError NotANumber)
  end.

(** [int(n * x)] for an integer [n] and a float [x]. *)
Definition int_times (n : Z) (x : spec_float) : result Z :=
  match float_of_int n with
  | S754_infinity _ => Err OverflowError
  | f => int_of_float (float_mul f x)
  end.

(** ** UTF-8 *)

Definition byte_of_N (n : N) : Byte.byte :=
  match Byte.of_N n with Some b => b | None => Byte.x00 end.

(** [c.encode("utf-8")] for one code point; a surrogate is not encodable. *)
Definition utf8_char (c : N) : result (list Byte.byte) :=
  if c <? 128 then Ok [byte_of_N c]
  else if c <? 2048 then
    Ok [byte_of_N (192 + c / 64); byte_of_N (128 + c mod 64)]
  else if c <? 65536 then
    if (55296 <=? c) && (c <=? 57343) then Err UnicodeEncodeError
    else Ok [byte_of_N (224 + c / 4096); byte_of_N (128 + (c / 64) mod 64);
             byte_of_N (128 + c mod 64)]
  else
    Ok [byte_of_N (240 + c / 262144); byte_of_N (128 + (c / 4096) mod 64);
        byte_of_N (128 + (c / 64) mod 64); byte_of_N (128 + c mod 64)].

Fixpoint encode_utf8 (s : pystr) : result (list Byte.byte) :=
  match s with
  | [] => Ok []
  | c :: s' =>
      let! b := utf8_char c in
      let! r := encode_utf8 s' in
      Ok (b ++ r)
  end.

(** ** What the pipeline writes *)

Record Disk := mkDisk {
  made_dirs : list Path;                       (* [mkdir(parents, exist_ok)] *)
  written : list (Path * list Byte.byte)       (* [write_bytes], latest first *)
}.

Definition empty_disk : Disk := mkDisk [] [].

(** ** agent/docgen.py *)

Module Docgen.

Section WithRepr.

(** [repr] of a [str] object (the quoting and escaping of string
    literals), which [str()] of a list or of a dict uses. *)
Variable repr_str : pystr -> pystr.

Fixpoint py_repr (v : pyval) : pystr :=
  match v with
  | PNone => u "None"
  | PBool b => if b then u "True" else u "False"
  | PInt n => str_of_Z n
  | PStr s => repr_str s
  | PList items =>
      u "[" ++ str_join (u ", ") (List.map py_repr items) ++ u "]"
  | PDict items =>
      u "{"
      ++ str_join (u ", ")
           (List.map (fun kv => repr_str (fst kv) ++ u ": " ++ py_repr (snd kv))
                     items)
      ++ u "}"
  | PObj _ _ r => r
  end.

(** [str(v)]. *)
Definition py_str (v : pyval) : pystr :=
  match v with
  | PStr s => s
  | PObj _ s _ => s
  | _ => py_repr v
  end.

Record DocGenResult := mkDocGenResult {
  out_path : Path;
  bytes_written : Z;
  model_hint : option pystr
}.

Definition ensure_dir (p : Path) (d : Disk) : Disk :=
  mkDisk (p :: made_dirs d) (written d).

Definition JOINER : pystr := u "__".
Definition MD_SUFFIX : pystr := u ".md".

Definition safe_doc_filename (relpath : Path) : pystr :=
  str_join JOINER (py_parts relpath) ++ MD_SUFFIX.

Definition TRUNCATION_NOTE : pystr :=
  [LF; LF] ++ u "# --- TRUNCATED ---" ++ [LF]
  ++ u "# The source file was truncated before being sent to the LLM." ++ [LF]
  ++ u "# Consider generating docs per-section if you need full coverage." ++ [LF]
  ++ u "# --- TRUNCATED ---" ++ [LF; LF].

Definition _truncate_source (source : pystr) (max_chars : Z) : result pystr :=
  let! h := int_times max_chars F0_65 in
  let! t := int_times max_chars F0_25 in
  let head := slice_to h source in
  let tail := slice_from (- t) source in
  Ok (head ++ TRUNCATION_NOTE ++ tail).

(** The items of a [content] list that are [{"type": "text", "text": str}]. *)
Fixpoint text_parts (content : list pyval) : result (list pyval) :=
  match content with
  | [] => Ok []
  | PDict item :: rest =>
      if eq_str (dict_get item (u "type")) (u "text")
         && is_str (dict_get item (u "text"))
      then
        let! v := getitem item (u "text") in
        let! r := text_parts rest in
        Ok (v :: r)
      else text_parts rest
  | _ :: rest => text_parts rest
  end.

(** [if s:] on an optional string. *)
Definition truthy (s : option pystr) : bool :=
  match s with Some (_ :: _) => true | _ => false end.

(** [for it in l: s = f(it); if s: return s]. *)
Fixpoint first_truthy (f : pyval -> option pystr) (l : list pyval)
  : option pystr :=
  match l with
  | [] => None
  | it :: l' => if truthy (f it) then f it else first_truthy f l'
  end.

(** [_dig_for_string(obj, depth)] for [depth = 7 - fuel]: the test
    [depth > 6] is [fuel = 0], and a call at [depth + 1] is a call with one
    unit of fuel less. *)
Fixpoint dig (fuel : nat) (obj : pyval) : option pystr :=
  match fuel with
  | O => None
  | S fuel' =>
      match obj with
      | PStr s => Some s
      | PDict d =>
          let from_message :=
            match dict_get d (u "message") with
            | PDict msg =>
                match dict_get msg (u "content") with
                | PStr c => Some c
                | _ => None
                end
            | _ => None
            end in
          match from_message with
          | Some c => Some c
          | None =>
              let from_choices :=
                match dict_get d (u "choices") with
                | PList ch => first_truthy (dig fuel') ch
                | _ => None
                end in
              if truthy from_choices then from_choices
              else first_truthy (dig fuel') (List.map snd d)
          end
      | PList l => first_truthy (dig fuel') l
      | _ => None
      end
  end.

Definition _dig_for_string (obj : pyval) (depth : nat) : option pystr :=
  dig (7 - depth) obj.

Fixpoint first_str_key (d : list (pystr * pyval)) (ks : list pystr)
  : option pystr :=
  match ks with
  | [] => None
  | k :: ks' =>
      match dict_get d k with
      | PStr v => Some v
      | _ => first_str_key d ks'
      end
  end.

Definition _extract_text (resp : pyval) : result pystr :=
  match resp with
  | PNone => Ok []
  | PStr s => Ok s
  | _ =>
      let content := getattr resp (u "content") in
      let! from_blocks :=
        match content with
        | PList items =>
            let! parts := text_parts items in
            if negb (is_nil parts) then
              let! s := join_vals [LF] parts in Ok (Some s)
            else Ok None
        | _ => Ok None
        end in
      match from_blocks with
      | Some s => Ok s
      | None =>
          match content with
          | PStr s => Ok s
          | _ =>
              match resp with
              | PDict d =>
                  match first_str_key d
                          [u "content"; u "text"; u "output"; u "message"] with
                  | Some v => Ok v
                  | None =>
                      match _dig_for_string resp 0 with
                      | Some v => Ok v
                      | None => Ok (py_str resp)
                      end
                  end
              | _ => Ok (py_str resp)
              end
          end
      end
  end.

Definition hint_of (v : pyval) : option pystr :=
  match v with
  | PStr s => if negb (is_nil (strip s)) then Some (strip s) else None
  | _ => None
  end.

Fixpoint first_hint (vs : list pyval) : option pystr :=
  match vs with
  | [] => None
  | v :: vs' =>
      match hint_of v with
      | Some h => Some h
      | None => first_hint vs'
      end
  end.

Definition _extract_model_hint (resp : pyval) : option pystr :=
  match first_hint [getattr resp (u "model"); getattr resp (u "model_name")] with
  | Some h => Some h
  | None =>
      match resp with
      | PDict d => first_hint [dict_get d (u "model"); dict_get d (u "model_name")]
      | _ => None
      end
  end.

(** A text-generation capability: the prompt to the response, [None] when
    the call raises. *)
Definition LLM := pystr -> option pyval.

Definition _call_llm_normalized (llm : LLM) (prompt : pystr)
  : result (pystr * option pystr) :=
  match llm prompt with
  | None => Err (RuntimeError LLMInvocationFailed)
  | Some resp =>
      let! text := _extract_text resp in
      Ok (text, _extract_model_hint resp)
  end.

Definition FENCE : pystr := u "```".

(** [re.match(r"^\s*#\s+", t)]. *)
Definition re_match_heading (t : pystr) : bool :=
  match drop_while py_isspace t with
  | c :: d :: _ => (c =? 35) && py_isspace d
  | _ => false
  end.

Definition _unwrap_single_fence (t : pystr) : pystr :=
  if startswith FENCE t && endswith FENCE t then
    let lines := splitlines t in
    if (3 <=? length lines)%nat
       && startswith FENCE (hd [] lines)
       && startswith FENCE (List.last lines [])
    then strip (str_join [LF] (removelast (tl lines)))
    else t
  else t.

Definition _postprocess_markdown (text : pystr) (relpath : Path) : pystr :=
  let t := strip text in
  let t := _unwrap_single_fence t in
  if negb (re_match_heading t)
  then u "# " ++ path_str relpath ++ [LF; LF] ++ t
  else t.

(** The source text that goes into the prompt. *)
Definition prompt_source (source : pystr) (max_source_chars : Z) : result pystr :=
  if (max_source_chars <? Z.of_nat (length source))%Z
  then _truncate_source source max_source_chars
  else Ok source.

Definition write_bytes (p : Path) (data : list Byte.byte) (d : Disk) : Disk :=
  mkDisk (made_dirs d) ((p, data) :: written d).

(** The steps of [generate_doc_for_file] between [ensure_dir] and
    [write_bytes]: the output path, the bytes to write and the model hint. *)
Definition generated_document (llm : LLM) (relpath : Path) (source' : pystr)
    (out_dir : Path) (request : pystr) (prompt_template : list segment)
  : result (Path * list Byte.byte * option pystr) :=
  let! prompt :=
    format prompt_template
      [(u "relpath", path_str relpath); (u "source", source');
       (u "request", strip request)] in
  let! tm := _call_llm_normalized llm prompt in
  let text := _postprocess_markdown (fst tm) relpath in
  if is_nil (strip text) then Err (RuntimeError EmptyDocumentation)
  else
    let out := path_join out_dir (Path_of_str (safe_doc_filename relpath)) in
    let! data := encode_utf8 (rstrip text ++ [LF]) in
    Ok (out, data, snd tm).

(** [generate_doc_for_file]: the disk after the call and what the call
    returns or raises. *)
Definition generate_doc_for_file_with (llm : LLM) (relpath : Path)
    (source : pystr) (out_dir : Path) (request : pystr)
    (prompt_template : list segment) (max_source_chars : Z) (d : Disk)
  : Disk * result DocGenResult :=
  if is_nil source || is_nil (strip source) then
    (d, Err (ValueError (EmptySource relpath)))
  else
    match prompt_source source max_source_chars with
    | Err e => (d, Err e)
    | Ok source' =>
        let d1 := ensure_dir out_dir d in
        match generated_document llm relpath source' out_dir request
                prompt_template with
        | Err e => (d1, Err e)
        | Ok (out, data, hint) =>
            (write_bytes out data d1,
             Ok (mkDocGenResult out (Z.of_nat (length data)) hint))
        end
    end.

(** The call with the defaults [prompt_template=DOC_PROMPT] and
    [max_source_chars=120_000]. *)
Definition generate_doc_for_file (llm : LLM) (relpath : Path) (source : pystr)
    (out_dir : Path) (request : pystr) (d : Disk) : Disk * result DocGenResult :=
  generate_doc_for_file_with llm relpath source out_dir request DOC_PROMPT 120000 d.

End WithRepr.

End Docgen.

(** ** agent/config.py *)

Definition LLM_MODEL_ID : pystr := u "openai.gpt-oss-120b".

(** ** agent/graph_agent.py *)

Module GraphAgent.

(** What [agent.secrets_scan.scan_for_secrets] returns for one finding. *)
Record SecretFinding := mkSecretFinding {
  kind : pystr;
  line : Z;
  excerpt : pystr
}.

Record AgentState := mkAgentState {
  request : pystr;
  root_dir : pystr;
  out_dir : pystr;
  file_list : list pystr;
  header_issues : gmap pystr pystr;
  secrets : gmap pystr (list (list (pystr * pyval)));
  docs : gmap pystr pystr;
  summary : pystr
}.

(** [AgentState(request=..., root_dir=..., out_dir=...)]. *)
Definition initial_state (request root_dir out_dir : pystr) : AgentState :=
  mkAgentState request root_dir out_dir [] ∅ ∅ ∅ [].

Definition py_truthy (v : pyval) : bool :=
  match v with
  | PNone => false
  | PBool b => b
  | PInt n => negb (n =? 0)%Z
  | PStr s => negb (is_nil s)
  | PList l => negb (is_nil l)
  | PDict d => negb (is_nil d)
  | PObj _ _ _ => true
  end.

(** [get_config_value(config, key, default)]; [config] is a dict or
    [None]. *)
Definition get_config_value (config : option (list (pystr * pyval)))
    (key : pystr) (default : pyval) : result pyval :=
  match config with
  | None | Some [] => Ok default
  | Some c =>
      let configurable := dict_get c (u "configurable") in
      if negb (py_truthy configurable) then Ok default
      else
        match configurable with
        | PDict cc =>
            Ok (match assoc_val key cc with Some v => v | None => default end)
        | _ => Err AttributeError
        end
  end.

Section Pipeline.

(** The collaborators that live outside these modules: the secret
    scanner ([agent.secrets_scan]), the model factory ([agent.oci_models])
    and Python's [repr] of strings.  The logger is left out: it changes
    nothing the pipeline reads. *)
Variable scan_for_secrets : pystr -> list SecretFinding.
Variable get_llm : pyval -> Docgen.LLM.
Variable repr_str : pystr -> pystr.

(** The file tree; the nodes only read it. *)
Variable w : World.

Fixpoint relpaths (fs : FsRo.ReadOnlySandboxFS) (py_files : list Path)
  : result (list pystr) :=
  match py_files with
  | [] => Ok []
  | p :: rest =>
      let! r := FsRo.relpath w fs p in
      let! rs := relpaths fs rest in
      Ok (path_str r :: rs)
  end.

Definition with_file_list (state : AgentState) (l : list pystr) : AgentState :=
  mkAgentState (request state) (root_dir state) (out_dir state) l
    (header_issues state) (secrets state) (docs state) (summary state).

Definition with_header_issues (state : AgentState) (m : gmap pystr pystr)
  : AgentState :=
  mkAgentState (request state) (root_dir state) (out_dir state)
    (file_list state) m (secrets state) (docs state) (summary state).

Definition with_secrets (state : AgentState)
    (m : gmap pystr (list (list (pystr * pyval)))) : AgentState :=
  mkAgentState (request state) (root_dir state) (out_dir state)
    (file_list state) (header_issues state) m (docs state) (summary state).

Definition with_docs (state : AgentState) (m : gmap pystr pystr) : AgentState :=
  mkAgentState (request state) (root_dir state) (out_dir state)
    (file_list state) (header_issues state) (secrets state) m (summary state).

Definition with_summary (state : AgentState) (s : pystr) : AgentState :=
  mkAgentState (request state) (root_dir state) (out_dir state)
    (file_list state) (header_issues state) (secrets state) (docs state) s.

Definition node_discover_files (state : AgentState) : result AgentState :=
  let! fs := FsRo.new_fs w (Path_of_str (root_dir state)) in
  let py_files := FsRo.list_python_files w fs in
  let! l := relpaths fs py_files in
  Ok (with_file_list state l).

(** The loop of [node_check_headers] over the files still to check. *)
Fixpoint check_headers_loop (fs : FsRo.ReadOnlySandboxFS) (files : list pystr)
    (issues : gmap pystr pystr) : result (gmap pystr pystr) :=
  match files with
  | [] => Ok issues
  | rel :: rest =>
      let! src := FsRo.read_text w fs (Path_of_str rel) in
      let res := HeaderRules.check_header src in
      check_headers_loop fs rest
        (if negb (HeaderRules.ok res)
         then <[rel := HeaderRules.message res]> issues
         else issues)
  end.

Definition node_check_headers (state : AgentState) : result AgentState :=
  let! fs := FsRo.new_fs w (Path_of_str (root_dir state)) in
  let! issues := check_headers_loop fs (file_list state) ∅ in
  Ok (with_header_issues state issues).

Definition finding_dict (f : SecretFinding) : list (pystr * pyval) :=
  [(u "kind", PStr (kind f)); (u "line", PInt (line f));
   (u "excerpt", PStr (excerpt f))].

(** The loop of [node_scan_secrets]. *)
Fixpoint scan_secrets_loop (fs : FsRo.ReadOnlySandboxFS) (files : list pystr)
    (all_findings : gmap pystr (list (list (pystr * pyval))))
  : result (gmap pystr (list (list (pystr * pyval)))) :=
  match files with
  | [] => Ok all_findings
  | rel :: rest =>
      let! src := FsRo.read_text w fs (Path_of_str rel) in
      let findings := scan_for_secrets src in
      scan_secrets_loop fs rest
        (if negb (is_nil findings)
         then <[rel := List.map finding_dict findings]> all_findings
         else all_findings)
  end.

Definition node_scan_secrets (state : AgentState) : result AgentState :=
  let! fs := FsRo.new_fs w (Path_of_str (root_dir state)) in
  let! all_findings := scan_secrets_loop fs (file_list state) ∅ in
  Ok (with_secrets state all_findings).

(** The loop of [node_generate_docs]. *)
Fixpoint generate_docs_loop (fs : FsRo.ReadOnlySandboxFS) (llm : Docgen.LLM)
    (out : Path) (req : pystr) (files : list pystr)
    (acc : gmap pystr pystr) (d : Disk) : Disk * result (gmap pystr pystr) :=
  match files with
  | [] => (d, Ok acc)
  | rel :: rest =>
      match FsRo.read_text w fs (Path_of_str rel) with
      | Err e => (d, Err e)
      | Ok src =>
          match Docgen.generate_doc_for_file repr_str llm (Path_of_str rel) src
                  out req d with
          | (d', Err e) => (d', Err e)
          | (d', Ok res) =>
              generate_docs_loop fs llm out req rest
                (<[rel := path_str (Docgen.out_path res)]> acc) d'
          end
      end
  end.

Definition node_generate_docs (state : AgentState)
    (config : option (list (pystr * pyval))) (d : Disk)
  : Disk * result AgentState :=
  match
    (let! fs := FsRo.new_fs w (Path_of_str (root_dir state)) in
     let! model_id := get_config_value config (u "model_id") PNone in
     let! out0 := expanduser w (Path_of_str (out_dir state)) in
     let! out := resolve w false out0 in
     Ok (fs, get_llm model_id, out))
  with
  | Err e => (d, Err e)
  | Ok (fs, llm, out) =>
      match generate_docs_loop fs llm out (request state) (file_list state) ∅ d with
      | (d', Err e) => (d', Err e)
      | (d', Ok m) => (d', Ok (with_docs state m))
      end
  end.

Definition count (n : nat) : pystr := str_of_Z (Z.of_nat n).

Definition node_finalize (state : AgentState) : AgentState :=
  with_summary state
    (u "Processed " ++ count (length (file_list state)) ++ u " files." ++ [LF]
     ++ u "Header issues: " ++ count (size (header_issues state)) ++ u " files." ++ [LF]
     ++ u "Secret findings: " ++ count (size (secrets state)) ++ u " files." ++ [LF]
     ++ u "Docs generated: " ++ count (size (docs state)) ++ u " files." ++ [LF]
     ++ u "Output dir: " ++ out_dir state ++ [LF]).

(** [run_agent]: the graph runs its nodes in the order of its edges. *)
Definition run_agent (root out req : pystr) (d : Disk) : Disk * result AgentState :=
  let state := initial_state req root out in
  let cfg := Some [(u "configurable", PDict [(u "model_id", PStr LLM_MODEL_ID)])] in
  match
    (let! s1 := node_discover_files state in
     let! s2 := node_check_headers s1 in
     node_scan_secrets s2)
  with
  | Err e => (d, Err e)
  | Ok s3 =>
      match node_generate_docs s3 cfg d with
      | (d', Err e) => (d', Err e)
      | (d', Ok s4) => (d', Ok (node_finalize s4))
      end
  end.

End Pipeline.

End GraphAgent.

(** ** Vocabulary of the statements *)

(** The exception of the empty-generation branch. *)
Definition is_empty_doc (e : exn) : bool :=
  match e with RuntimeError EmptyDocumentation => true | _ => false end.

(** A text that holds no line boundary: one line. *)
Definition no_linebreak (x : pystr) : Prop :=
  forallb (fun c => negb (is_linebreak c)) x = true.

(** A text that begins with a top-level heading marker: optional
    whitespace, [#], whitespace. *)
Definition begins_with_heading (t : pystr) : Prop :=
  exists ws c rest,
    t = ws ++ 35 :: c :: rest
    /\ forallb py_isspace ws = true /\ py_isspace c = true.

(** The text made of an opening fence line, interior lines and a closing
    fence line. *)
Definition fenced_text (opening closing : pystr) (interior : list pystr)
  : pystr :=
  str_join [LF] (opening :: interior ++ [closing]).

(** The text after the first occurrence of [needle] in [hay]. *)
Fixpoint after_first (needle hay : pystr) : option pystr :=
  match after_prefix needle hay with
  | Some r => Some r
  | None =>
      match hay with
      | [] => None
      | _ :: hay' => after_first needle hay'
      end
  end.

Definition nonspace (c : N) : bool := negb (py_isspace c).

Definition DESCRIPTION : pystr := u "Description:".

(** Nothing but whitespace between the first [Description:] and the end
    of its line. *)
Definition description_line_blank (head : pystr) : bool :=
  match after_first DESCRIPTION head with
  | Some r => forallb py_isspace (take_while (fun c => negb (is_linebreak c)) r)
  | None => false
  end.

(** The required markers that [head] does not hold. *)
Definition missing_of (head : pystr) : list pystr :=
  List.filter (fun k => negb (contains k head)) HeaderRules.REQUIRED_KEYS.

(** A part that [joinrealpath] keeps: not empty, not ["."], not [".."]. *)
Definition normal_name (name : pystr) : bool :=
  negb (is_nil name || str_eqb name (u ".")) && negb (str_eqb name (u "..")).

Definition not_link (w : World) (p : list pystr) : Prop :=
  forall t, lookup_node (tree w) p <> Some (Symlink t).

(** A canonical list of parts: normal names, and no prefix is a link. *)
Inductive clean (w : World) : list pystr -> Prop :=
| clean_nil : clean w []
| clean_snoc path name :
    clean w path -> normal_name name = true -> not_link w (path ++ [name]) ->
    clean w (path ++ [name]).

(** What the header stage has to say about one file: the message of a
    failed check, nothing for a file that passes. *)
Definition issue_of (w : World) (fs : FsRo.ReadOnlySandboxFS) (rel : pystr)
  : option pystr :=
  match FsRo.read_text w fs (Path_of_str rel) with
  | Ok src =>
      let res := HeaderRules.check_header src in
      if negb (HeaderRules.ok res) then Some (HeaderRules.message res) else None
  | Err _ => None
  end.

(** Where the document of one file goes. *)
Definition doc_target (out : Path) (rel : pystr) : pystr :=
  path_str (path_join out (Path_of_str (Docgen.safe_doc_filename (Path_of_str rel)))).

Definition readable (w : World) (fs : FsRo.ReadOnlySandboxFS) (rel : pystr) : Prop :=
  exists src, FsRo.read_text w fs (Path_of_str rel) = Ok src.

Definition UNDERSCORE : pystr := u "_".

(** A path part that the joiner cannot be confused with: it holds no
    ["__"] and does not end in ["_"]. *)
Definition joiner_free (p : pystr) : Prop :=
  contains Docgen.JOINER p = false /\ endswith UNDERSCORE p = false.

Definition good_part (p : pystr) : Prop := p <> [] /\ joiner_free p.

(** What may follow a part in a joined name: nothing, or the joiner and
    more. *)
Definition joined_tail (t : pystr) : Prop :=
  t = [] \/ exists r, t = Docgen.JOINER ++ r.

(** A value in which no string occurs (dictionary keys apart). *)
Fixpoint has_str (v : pyval) : bool :=
  match v with
  | PStr _ => true
  | PList l => existsb has_str l
  | PDict d => existsb (fun kv => has_str (snd kv)) d
  | _ => false
  end.

(** A content block [{"type": "text", "text": t, ...}]. *)
Definition is_text_block (v : pyval) (t : pystr) : Prop :=
  exists d, v = PDict d
            /\ dict_get d (u "type") = PStr (u "text")
            /\ dict_get d (u "text") = PStr t.

(** [nest n v]: [v] inside [n] lists, [[[...v...]]]. *)
Fixpoint nest (n : nat) (v : pyval) : pyval :=
  match n with
  | O => v
  | S n' => PList [nest n' v]
  end.

(** A name as a file system has it: no slash inside. *)
Definition slash_free (x : pystr) : bool :=
  forallb (fun c => negb (c =? SLASH)) x.

(** Every entry name and every part of a link target in the tree is
    slash-free. *)
Fixpoint names_ok (n : node) : bool :=
  match n with
  | File _ _ => true
  | Symlink t => forallb slash_free (parts t)
  | Dir es => forallb (fun e => slash_free (fst e) && names_ok (snd e)) es
  end.

(** What a later stage computes from an entry [rel] of the file list:
    the path resolved under the root, made relative again, as a string. *)
Definition reread (w : World) (fs : FsRo.ReadOnlySandboxFS) (rel : pystr)
  : result pystr :=
  let! r := FsRo._resolve_under_root w fs (Path_of_str rel) in
  let! q := FsRo.relpath w fs r in
  Ok (path_str q).

(** ** Sample trees, sources and responses *)

Module Sample.

(** A source file with a complete header. *)
Definition complete_source : pystr :=
  text_lines
    [ "File name: a.py"; "Author: A. Dev"; "Date last modified: 2025-12-14";
      "Python Version: 3.11"; "Description:"; "    Adds two numbers.";
      "License: MIT"; "x = 1" ]%string.

(** The same header without its [License:] line. *)
Definition no_license_source : pystr :=
  text_lines
    [ "File name: b.py"; "Author: A. Dev"; "Date last modified: 2025-12-14";
      "Python Version: 3.11"; "Description:"; "    Adds two numbers.";
      "y = 2" ]%string.

(** All six markers, nothing on the [Description:] line, the license on
    the next line. *)
Definition blank_description_source : pystr :=
  text_lines
    [ "File name: c.py"; "Author: A. Dev"; "Date last modified: 2025-12-14";
      "Python Version: 3.11"; "Description:"; "License: MIT"; "z = 3" ]%string.

(** All six markers, and only blanks after [Description:] up to the end. *)
Definition trailing_description_source : pystr :=
  text_lines
    [ "File name: c.py"; "Author: A. Dev"; "Date last modified: 2025-12-14";
      "Python Version: 3.11"; "License: MIT"; "Description:   "; "" ]%string.

Definition file_of (text : pystr) : node :=
  File (Z.of_nat (length text)) text.

(** [/proj] holds two sources and a link [lnk -> ../out]; [/out/s.py] is
    outside of [/proj]. *)
Definition escape_tree : node :=
  Dir [ (u "proj",
         Dir [ (u "a.py", file_of complete_source);
               (u "sub", Dir [ (u "b.py", file_of no_license_source) ]);
               (u "lnk", Symlink (mkPath false [u ".."; u "out"])) ]);
        (u "out", Dir [ (u "s.py", file_of (u "secret")) ]) ].

Definition no_home : pystr -> option Path := fun _ => None.

Definition escape_world : World := mkWorld escape_tree [] 40 no_home.

Definition proj : Path := mkPath true [u "proj"].
Definition proj_fs : FsRo.ReadOnlySandboxFS := FsRo.mkFS proj.
Definition outside : Path := mkPath true [u "out"; u "s.py"].

(** [/proj] with a directory named [d.py] and a readable [z.py]. *)
Definition unreadable_world : World :=
  mkWorld
    (Dir [ (u "proj",
            Dir [ (u "d.py", Dir []); (u "z.py", file_of complete_source) ]) ])
    [] 40 no_home.

(** [/proj] with a file over the size limit and a readable [z.py]. *)
Definition oversize_world : World :=
  mkWorld
    (Dir [ (u "proj",
            Dir [ (u "big.py", File 2000001 complete_source);
                  (u "z.py", file_of complete_source) ]) ])
    [] 40 no_home.

(** [/proj] with two files: a complete header, and one without
    [License:]. *)
Definition two_files_world : World :=
  mkWorld
    (Dir [ (u "proj",
            Dir [ (u "a.py", file_of complete_source);
                  (u "b.py", file_of no_license_source) ]) ])
    [] 40 no_home.

Definition no_secrets : pystr -> list GraphAgent.SecretFinding := fun _ => [].

(** A text-generation stub: always the same fenced document. *)
Definition fenced_reply : pystr :=
  text_lines [ "```"; "# Title"; "body"; "```" ]%string.

Definition stub_llm : Docgen.LLM := fun _ => Some (PStr fenced_reply).

Definition plain_repr (s : pystr) : pystr := u "'" ++ s ++ u "'".

Definition start_state : GraphAgent.AgentState :=
  GraphAgent.initial_state (u "document it") (u "/proj") (u "/out").

End Sample.

(** Sample responses of a model. *)
Module Reply.

Definition text_block (t : pystr) : pyval :=
  PDict [(u "type", PStr (u "text")); (u "text", PStr t)].

(** An object whose [content] is the blocks [A] and [B]. *)
Definition two_blocks : pyval :=
  PObj [(u "content", PList [text_block (u "A"); text_block (u "B")])] [] [].

(** [{"choices": [{"message": {"content": "hi"}}]}]. *)
Definition choices : pyval :=
  PDict [(u "choices",
          PList [PDict [(u "message", PDict [(u "content", PStr (u "hi"))])]])].

(** [{"usage": {"tokens": 3}, "done": True}]: no text anywhere. *)
Definition no_text : list (pystr * pyval) :=
  [(u "usage", PDict [(u "tokens", PInt 3)]); (u "done", PBool true)].

(** A fenced document inside another fence. *)
Definition doubly_fenced : pystr :=
  text_lines [ "```"; "```"; "# Title"; "```"; "```" ]%string.

Definition empty_llm : Docgen.LLM := fun _ => Some (PStr []).

End Reply.

(* ================================================================== *)
(** * Part II: properties                                              *)
(* ================================================================== *)

(** ** Strings *)

Lemma char_eqb_eq (a b : N) : char_eqb a b = true <-> a = b.
Proof. unfold char_eqb. apply N.eqb_eq. Qed.

Lemma str_eqb_eq (a b : pystr) : str_eqb a b = true <-> a = b.
Proof.
  revert b. induction a as [|x a IH]; intros [|y b]; simpl; split;
    try congruence; try discriminate.
  - intros H. apply andb_true_iff in H as [Hx Hab].
    apply char_eqb_eq in Hx. apply IH in Hab. congruence.
  - intros H. injection H as -> ->. apply andb_true_iff. split.
    + now apply char_eqb_eq.
    + now apply IH.
Qed.

Lemma str_eqb_refl (a : pystr) : str_eqb a a = true.
Proof. now apply str_eqb_eq. Qed.

Lemma str_eqb_neq (a b : pystr) : str_eqb a b = false <-> a <> b.
Proof.
  split.
  - intros H E. apply str_eqb_eq in E. congruence.
  - intros H. destruct (str_eqb a b) eqn:E; [|reflexivity].
    apply str_eqb_eq in E. contradiction.
Qed.

Lemma after_prefix_Some (p s r : pystr) :
  after_prefix p s = Some r <-> s = p ++ r.
Proof.
  revert s. induction p as [|x p IH]; intros s; simpl.
  - split; congruence.
  - destruct s as [|y s]; [split; discriminate|].
    destruct (char_eqb x y) eqn:E.
    + apply char_eqb_eq in E. subst y. rewrite IH. split; congruence.
    + split; [discriminate|]. intros H. injection H as -> _.
      unfold char_eqb in E. rewrite N.eqb_refl in E. discriminate.
Qed.

Lemma after_prefix_app (p r : pystr) : after_prefix p (p ++ r) = Some r.
Proof. now apply after_prefix_Some. Qed.

Lemma startswith_true (p s : pystr) :
  startswith p s = true <-> exists r, s = p ++ r.
Proof.
  unfold startswith. destruct (after_prefix p s) as [r|] eqn:E.
  - apply after_prefix_Some in E. split; eauto.
  - split; [discriminate|]. intros [r Hr].
    apply after_prefix_Some in Hr. congruence.
Qed.

Lemma endswith_true (p s : pystr) :
  endswith p s = true <-> exists r, s = r ++ p.
Proof.
  unfold endswith. rewrite startswith_true. split; intros [r Hr].
  - exists (rev r). rewrite <- (rev_involutive s), Hr, rev_app_distr.
    now rewrite rev_involutive.
  - exists (rev r). now rewrite Hr, rev_app_distr.
Qed.

Lemma contains_true (n h : pystr) :
  contains n h = true <-> exists a b, h = a ++ n ++ b.
Proof.
  induction h as [|c h IH]; simpl.
  - rewrite orb_false_r, startswith_true. split.
    + intros [r Hr]. exists [], r. exact Hr.
    + intros (a & b & H). destruct a; simpl in H.
      * eauto.
      * discriminate.
  - rewrite orb_true_iff, startswith_true, IH. split.
    + intros [[r Hr]|(a & b & H)].
      * exists [], r. exact Hr.
      * exists (c :: a), b. simpl. now rewrite H.
    + intros (a & b & H). destruct a as [|x a]; simpl in H.
      * left. eauto.
      * right. injection H as _ H. eauto.
Qed.

Lemma drop_while_all (p : N -> bool) (s : pystr) :
  drop_while p s = [] <-> forallb p s = true.
Proof.
  induction s as [|c s IH]; simpl; [tauto|].
  destruct (p c); simpl; [exact IH|]. split; discriminate.
Qed.

Lemma drop_while_head (p : N -> bool) (c : N) (s : pystr) :
  p c = false -> drop_while p (c :: s) = c :: s.
Proof. intros H. simpl. now rewrite H. Qed.

Lemma drop_while_suffix (p : N -> bool) (s : pystr) :
  exists a, s = a ++ drop_while p s /\ forallb p a = true.
Proof.
  induction s as [|c s (a & Ha & Hp)]; simpl.
  - exists []. auto.
  - destruct (p c) eqn:E.
    + exists (c :: a). simpl. rewrite E. split; [now f_equal|exact Hp].
    + exists []. auto.
Qed.

Lemma drop_while_first (p : N -> bool) (s : pystr) (c : N) (r : pystr) :
  drop_while p s = c :: r -> p c = false.
Proof.
  induction s as [|d s IH]; simpl; [discriminate|].
  destruct (p d) eqn:E; [exact IH|]. congruence.
Qed.

Lemma forallb_rev (p : N -> bool) (s : pystr) :
  forallb p (rev s) = forallb p s.
Proof.
  induction s as [|c s IH]; simpl; [reflexivity|].
  rewrite forallb_app, IH. simpl. rewrite andb_true_r. apply andb_comm.
Qed.

Lemma rstrip_nil_iff (s : pystr) : rstrip s = [] <-> forallb py_isspace s = true.
Proof.
  unfold rstrip. rewrite <- forallb_rev, <- drop_while_all. split.
  - intros H. apply (f_equal (@rev N)) in H. now rewrite rev_involutive in H.
  - intros ->. reflexivity.
Qed.

Lemma strip_nil_iff (s : pystr) : strip s = [] <-> forallb py_isspace s = true.
Proof.
  unfold strip. rewrite rstrip_nil_iff. unfold lstrip.
  destruct (drop_while_suffix py_isspace s) as (a & Ha & Hp).
  rewrite Ha at 2. rewrite forallb_app, Hp. simpl. tauto.
Qed.

Lemma strip_nonspace (s : pystr) :
  existsb (fun c => negb (py_isspace c)) s = true -> strip s <> [].
Proof.
  intros H E. apply strip_nil_iff in E.
  apply existsb_exists in H as (c & Hin & Hc).
  rewrite forallb_forall in E. rewrite (E c Hin) in Hc. discriminate.
Qed.

(** A string that neither starts nor ends with whitespace is its own
    [strip]. *)
Lemma rstrip_last (s : pystr) (c : N) :
  py_isspace c = false -> rstrip (s ++ [c]) = s ++ [c].
Proof.
  intros H. unfold rstrip. rewrite rev_app_distr. simpl. rewrite H.
  simpl. now rewrite rev_involutive.
Qed.

Lemma strip_fixed (c d : N) (s : pystr) :
  py_isspace c = false -> py_isspace d = false ->
  strip (c :: s ++ [d]) = c :: s ++ [d].
Proof.
  intros Hc Hd. unfold strip, lstrip. simpl. rewrite Hc.
  change (c :: s ++ [d]) with ((c :: s) ++ [d]). now apply rstrip_last.
Qed.

Lemma rstrip_shape (s : pystr) :
  rstrip s = [] \/ exists b c, rstrip s = b ++ [c] /\ py_isspace c = false.
Proof.
  unfold rstrip. destruct (drop_while py_isspace (rev s)) as [|c r] eqn:E.
  - now left.
  - right. exists (rev r), c. split; [reflexivity|].
    eapply drop_while_first; eauto.
Qed.

Section NormalizerFacts.
Import Docgen.

(** ** Response normalization never raises *)

Lemma bind_Ok {A B} (r : result A) (k : A -> result B) (b : B) :
  bind r k = Ok b <-> exists a, r = Ok a /\ k a = Ok b.
Proof.
  destruct r as [a|e]; simpl.
  - split; [eauto|]. now intros (a' & [= ->] & H).
  - split; [discriminate|]. now intros (a' & [=] & _).
Qed.

Lemma bind_Err {A B} (r : result A) (k : A -> result B) (e : exn) :
  bind r k = Err e <-> r = Err e \/ exists a, r = Ok a /\ k a = Err e.
Proof.
  destruct r as [a|e']; simpl.
  - split; [eauto|]. intros [[=]|(a' & [= ->] & H)]. exact H.
  - split; [intros [= ->]; now left|]. intros [[= ->]|(a' & [=] & _)].
    reflexivity.
Qed.

Lemma getitem_of_get (d : list (pystr * pyval)) (k : pystr) :
  is_str (dict_get d k) = true -> getitem d k = Ok (dict_get d k).
Proof.
  unfold dict_get, getitem. destruct (assoc_val k d); [reflexivity|discriminate].
Qed.

Lemma text_parts_strings (content : list pyval) :
  exists parts, text_parts content = Ok parts
                /\ Forall (fun v => is_str v = true) parts.
Proof.
  induction content as [|item rest (parts & Hp & Hs)]; simpl.
  - exists []. auto.
  - destruct item; eauto.
    destruct (eq_str _ _ && is_str (dict_get items (u "text"))) eqn:E; eauto.
    apply andb_true_iff in E as [_ E].
    rewrite (getitem_of_get _ _ E), Hp. simpl. eauto.
Qed.

Lemma join_vals_strings (sep : pystr) (vs : list pyval) :
  Forall (fun v => is_str v = true) vs -> exists s, join_vals sep vs = Ok s.
Proof.
  induction 1 as [|v vs Hv _ (s & Hs)]; simpl; [eauto|].
  destruct v; try discriminate. destruct vs; [eauto|].
  rewrite Hs. simpl. eauto.
Qed.

Lemma extract_text_total (repr_str : pystr -> pystr) (resp : pyval) :
  exists s, _extract_text repr_str resp = Ok s.
Proof.
  assert (Hb : forall content : pyval, exists o,
    match content with
    | PList items =>
        let! parts := text_parts items in
        if negb (is_nil parts)
        then let! s := join_vals [LF] parts in Ok (Some s)
        else Ok None
    | _ => Ok None
    end = Ok o).
  { intros content. destruct content; eauto.
    destruct (text_parts_strings items) as (parts & -> & Hs). simpl.
    destruct (is_nil parts); simpl; eauto.
    destruct (join_vals_strings [LF] parts Hs) as (s & ->). simpl. eauto. }
  unfold _extract_text.
  destruct resp; cbv beta zeta iota; eauto.
  all: match goal with
       | |- context [getattr ?r ?n] =>
           destruct (Hb (getattr r n)) as (o & Ho)
       end.
  all: cbv beta zeta iota in Ho; rewrite Ho; simpl bind.
  all: destruct o; eauto.
  all: try match goal with
       | |- context [match getattr ?r ?n with _ => _ end] =>
           destruct (getattr r n); eauto
       end.
  all: repeat match goal with
       | |- context [match ?x with _ => _ end] => destruct x; eauto
       end.
Qed.

(** ** The post-processed text is never empty *)

Lemma re_match_heading_nonspace (t : pystr) :
  re_match_heading t = true ->
  existsb (fun c => negb (py_isspace c)) t = true.
Proof.
  unfold re_match_heading.
  destruct (drop_while_suffix py_isspace t) as (a & Ha & _).
  destruct (drop_while py_isspace t) as [|c [|d r]]; try discriminate.
  intros H. apply andb_true_iff in H as [Hc _]. apply N.eqb_eq in Hc. subst c.
  rewrite Ha, existsb_app. simpl. now rewrite orb_true_r.
Qed.

Lemma postprocess_strip_nonempty (text : pystr) (relpath : Path) :
  strip (_postprocess_markdown text relpath) <> [].
Proof.
  unfold _postprocess_markdown.
  destruct (re_match_heading _) eqn:E; simpl.
  - apply strip_nonspace. now apply re_match_heading_nonspace.
  - apply strip_nonspace. reflexivity.
Qed.

Lemma postprocess_nonempty (text : pystr) (relpath : Path) :
  _postprocess_markdown text relpath <> [].
Proof.
  intros E. apply (postprocess_strip_nonempty text relpath). now rewrite E.
Qed.

Lemma format_not_empty_doc (t : list segment) (kw : list (pystr * pystr)) (e : exn) :
  format t kw = Err e -> is_empty_doc e = false.
Proof.
  revert e. induction t as [|[s|name] t IH]; intros e; simpl; [discriminate| |].
  - destruct (format t kw); simpl; [discriminate|]. intros [= <-]. now apply IH.
  - destruct (assoc_str name kw); [|now intros [= <-]].
    destruct (format t kw); simpl; [discriminate|]. intros [= <-]. now apply IH.
Qed.

Lemma encode_utf8_not_empty_doc (s : pystr) (e : exn) :
  encode_utf8 s = Err e -> is_empty_doc e = false.
Proof.
  revert e. induction s as [|c s IH]; intros e; simpl; [discriminate|].
  unfold utf8_char.
  repeat match goal with
         | |- context [if ?b then _ else _] => destruct b; simpl
         end;
    try (intros [= <-]; reflexivity);
    destruct (encode_utf8 s); simpl; try discriminate;
    intros [= <-]; now apply IH.
Qed.

Lemma int_times_not_empty_doc (n : Z) (x : spec_float) (e : exn) :
  int_times n x = Err e -> is_empty_doc e = false.
Proof.
  unfold int_times, int_of_float.
  destruct (float_of_int n); try (intros [= <-]; reflexivity);
    destruct (float_mul _ x); try discriminate; intros [= <-]; reflexivity.
Qed.

Lemma prompt_source_not_empty_doc (source : pystr) (m : Z) (e : exn) :
  prompt_source source m = Err e -> is_empty_doc e = false.
Proof.
  unfold prompt_source, _truncate_source.
  destruct (_ <? _)%Z; [|discriminate].
  destruct (int_times m F0_65) eqn:E1; simpl.
  - destruct (int_times m F0_25) eqn:E2; simpl; [discriminate|].
    intros [= <-]. eapply int_times_not_empty_doc; eauto.
  - intros [= <-]. eapply int_times_not_empty_doc; eauto.
Qed.

Lemma generated_document_not_empty_doc (repr_str : pystr -> pystr) (llm : LLM)
    (relpath : Path) (source' : pystr) (out_dir : Path) (request : pystr)
    (t : list segment) (e : exn) :
  generated_document repr_str llm relpath source' out_dir request t = Err e ->
  is_empty_doc e = false.
Proof.
  unfold generated_document.
  match goal with
  | |- context [format ?a ?b] => destruct (format a b) as [prompt|e0] eqn:Ef
  end; simpl bind.
  2:{ intros [= <-]. eapply format_not_empty_doc; eauto. }
  unfold _call_llm_normalized. destruct (llm prompt) as [resp|]; simpl bind.
  2:{ now intros [= <-]. }
  destruct (extract_text_total repr_str resp) as (s & ->). simpl bind.
  cbv beta. simpl fst. simpl snd.
  pose proof (postprocess_strip_nonempty s relpath) as Hne.
  destruct (strip (_postprocess_markdown s relpath)); [contradiction|].
  simpl is_nil. cbv iota.
  match goal with
  | |- context [encode_utf8 ?a] => destruct (encode_utf8 a) eqn:Ee
  end; simpl bind; [discriminate|].
  intros [= <-]. eapply encode_utf8_not_empty_doc; eauto.
Qed.

End NormalizerFacts.

Section MarkdownFacts.
Import Docgen.

(** ** Lines *)

Lemma splitlines_from_run (x cur s : pystr) :
  no_linebreak x ->
  splitlines_from cur (x ++ s) = splitlines_from (rev x ++ cur) s.
Proof.
  unfold no_linebreak. revert cur. induction x as [|c x IH]; intros cur H.
  - reflexivity.
  - simpl in H. apply andb_true_iff in H as [Hc Hx].
    apply negb_true_iff in Hc. simpl. rewrite Hc, (IH _ Hx).
    now rewrite <- app_assoc.
Qed.

Lemma splitlines_from_LF (cur : pystr) (d : N) (s : pystr) :
  splitlines_from cur (LF :: d :: s) = rev cur :: splitlines_from [] (d :: s).
Proof. reflexivity. Qed.

Lemma str_join_cons2 (sep x y : pystr) (l : list pystr) :
  str_join sep (x :: y :: l) = x ++ sep ++ str_join sep (y :: l).
Proof. reflexivity. Qed.

Lemma str_join_snoc (sep x : pystr) (l : list pystr) :
  l <> [] -> str_join sep (l ++ [x]) = str_join sep l ++ sep ++ x.
Proof.
  induction l as [|a l IH]; [congruence|]. intros _.
  destruct l as [|b l]; [reflexivity|].
  change ((a :: b :: l) ++ [x]) with (a :: b :: (l ++ [x])).
  rewrite !str_join_cons2.
  change (b :: l ++ [x]) with ((b :: l) ++ [x]).
  rewrite IH by discriminate. now rewrite <- !app_assoc.
Qed.

Lemma str_join_last_nonempty (sep : pystr) (l : list pystr) :
  List.last l [] <> [] -> str_join sep l <> [].
Proof.
  induction l as [|a l IH]; [simpl; congruence|].
  destruct l as [|b l]; [simpl; congruence|].
  intros H. rewrite str_join_cons2. intros E.
  apply app_eq_nil in E as [_ E]. apply app_eq_nil in E as [_ E].
  now apply IH.
Qed.

Lemma splitlines_from_join (ls : list pystr) (cur : pystr) :
  ls <> [] -> Forall no_linebreak ls -> List.last ls [] <> [] ->
  splitlines_from cur (str_join [LF] ls) = (rev cur ++ hd [] ls) :: tl ls.
Proof.
  revert cur. induction ls as [|x ls IH]; [congruence|]. intros cur _ Hf Hl.
  inversion Hf as [|? ? Hx Hf']; subst.
  destruct ls as [|y ls].
  - simpl in *. rewrite <- (app_nil_r x) at 1.
    rewrite (splitlines_from_run x cur [] Hx). simpl.
    destruct (rev x ++ cur) eqn:E.
    + apply app_eq_nil in E as [E _].
      apply (f_equal (@rev N)) in E. rewrite rev_involutive in E. contradiction.
    + rewrite <- E, rev_app_distr, rev_involutive. reflexivity.
  - rewrite str_join_cons2. rewrite (splitlines_from_run x cur _ Hx).
    assert (Hne : str_join [LF] (y :: ls) <> [])
      by (apply str_join_last_nonempty; exact Hl).
    destruct (str_join [LF] (y :: ls)) as [|d s] eqn:E; [congruence|].
    change ([LF] ++ d :: s) with (LF :: d :: s).
    rewrite splitlines_from_LF, IH; try discriminate; auto.
    rewrite rev_app_distr, rev_involutive. reflexivity.
Qed.

Lemma splitlines_join (ls : list pystr) :
  ls <> [] -> Forall no_linebreak ls -> List.last ls [] <> [] ->
  splitlines (str_join [LF] ls) = ls.
Proof.
  intros H1 H2 H3. unfold splitlines.
  rewrite splitlines_from_join by assumption. destruct ls; [congruence|reflexivity].
Qed.

(** ** Stripping *)

Lemma drop_while_app_all (p : N -> bool) (a s : pystr) :
  forallb p a = true -> drop_while p (a ++ s) = drop_while p s.
Proof.
  induction a as [|c a IH]; simpl; [reflexivity|].
  intros H. apply andb_true_iff in H as [Hc Ha]. rewrite Hc. now apply IH.
Qed.

Lemma strip_surrounded (ws1 ws2 t : pystr) (c d : N) (r : pystr) :
  forallb py_isspace ws1 = true -> forallb py_isspace ws2 = true ->
  t = c :: r ++ [d] -> py_isspace c = false -> py_isspace d = false ->
  strip (ws1 ++ t ++ ws2) = t.
Proof.
  intros H1 H2 -> Hc Hd. unfold strip, lstrip, rstrip.
  rewrite drop_while_app_all by assumption. simpl. rewrite Hc.
  change (c :: (r ++ [d]) ++ ws2) with ((c :: r ++ [d]) ++ ws2).
  rewrite rev_app_distr, drop_while_app_all by (now rewrite forallb_rev).
  change (c :: r ++ [d]) with ((c :: r) ++ [d]).
  rewrite rev_app_distr. simpl. rewrite Hd. simpl.
  rewrite rev_app_distr, rev_involutive. reflexivity.
Qed.

(** ** The heading test *)

Lemma re_match_heading_spec (t : pystr) :
  re_match_heading t = true <-> begins_with_heading t.
Proof.
  unfold re_match_heading, begins_with_heading. split.
  - destruct (drop_while_suffix py_isspace t) as (a & Ha & Hp).
    destruct (drop_while py_isspace t) as [|c [|d r]]; try discriminate.
    intros H. apply andb_true_iff in H as [Hc Hd]. apply N.eqb_eq in Hc.
    subst c. exists a, d, r. auto.
  - intros (ws & c & rest & -> & Hws & Hc).
    rewrite drop_while_app_all by assumption. simpl. now rewrite Hc.
Qed.

(** ** Fences *)

Lemma fence_first (x : pystr) :
  startswith FENCE x = true -> exists r, x = 96 :: r.
Proof.
  intros H. apply startswith_true in H as [r ->]. now exists (96 :: 96 :: r).
Qed.

Lemma fence_last (x : pystr) :
  endswith FENCE x = true -> exists r, x = r ++ [96].
Proof.
  intros H. apply endswith_true in H as [r ->]. exists (r ++ [96; 96]).
  rewrite <- app_assoc. reflexivity.
Qed.

Section Fenced.

Variables opening closing : pystr.
Variable interior : list pystr.

Hypothesis opening_fence : startswith FENCE opening = true.
Hypothesis closing_fence : startswith FENCE closing = true.
Hypothesis closing_ends : endswith FENCE closing = true.
Hypothesis lines_ok : Forall no_linebreak (opening :: interior ++ [closing]).
Hypothesis interior_nonempty : interior <> [].

Local Abbreviation fenced := (fenced_text opening closing interior).

Lemma fenced_lines : splitlines fenced = opening :: interior ++ [closing].
Proof.
  apply splitlines_join; [discriminate|exact lines_ok|].
  change (opening :: interior ++ [closing])
    with ((opening :: interior) ++ [closing]).
  rewrite last_last. destruct (fence_first _ closing_fence) as [r ->].
  discriminate.
Qed.

Lemma fenced_eq :
  fenced = opening ++ [LF] ++ str_join [LF] interior ++ [LF] ++ closing.
Proof.
  unfold fenced_text. destruct interior as [|a l] eqn:E; [contradiction|].
  change (opening :: (a :: l) ++ [closing])
    with (opening :: a :: (l ++ [closing])).
  rewrite str_join_cons2. do 2 f_equal.
  change (a :: l ++ [closing]) with ((a :: l) ++ [closing]).
  now rewrite str_join_snoc by discriminate.
Qed.

Lemma fenced_shape : exists r, fenced = 96 :: r ++ [96].
Proof.
  rewrite fenced_eq.
  destruct (fence_first _ opening_fence) as [o ->].
  destruct (fence_last _ closing_ends) as [c ->].
  exists (o ++ [LF] ++ str_join [LF] interior ++ [LF] ++ c).
  simpl. f_equal. repeat (rewrite <- app_assoc; simpl). reflexivity.
Qed.

Lemma unwrap_fenced :
  _unwrap_single_fence fenced = strip (str_join [LF] interior).
Proof.
  unfold _unwrap_single_fence.
  assert (Hs : startswith FENCE fenced = true).
  { apply startswith_true. apply startswith_true in opening_fence as [r Hr].
    rewrite fenced_eq, Hr. eexists. rewrite <- app_assoc. reflexivity. }
  assert (He : endswith FENCE fenced = true).
  { apply endswith_true. apply endswith_true in closing_ends as [r Hr].
    rewrite fenced_eq, Hr. eexists. rewrite !app_assoc. reflexivity. }
  assert (Hlen : (3 <=? length (opening :: interior ++ [closing]))%nat = true).
  { apply Nat.leb_le. simpl. rewrite length_app. simpl.
    destruct interior; [contradiction|simpl; lia]. }
  assert (Hlast : List.last (opening :: interior ++ [closing]) [] = closing).
  { change (opening :: interior ++ [closing])
      with ((opening :: interior) ++ [closing]).
    apply last_last. }
  rewrite Hs, He, fenced_lines, Hlen, Hlast, closing_fence.
  cbn [hd tl andb]. rewrite opening_fence.
  now rewrite removelast_last.
Qed.

Lemma postprocess_fenced (ws1 ws2 : pystr) (relpath : Path) :
  forallb py_isspace ws1 = true -> forallb py_isspace ws2 = true ->
  _postprocess_markdown (ws1 ++ fenced ++ ws2) relpath =
  let inner := strip (str_join [LF] interior) in
  if re_match_heading inner then inner
  else u "# " ++ path_str relpath ++ [LF; LF] ++ inner.
Proof.
  intros H1 H2. unfold _postprocess_markdown.
  destruct fenced_shape as [r Hr].
  rewrite (strip_surrounded ws1 ws2 fenced 96 96 r H1 H2 Hr) by reflexivity.
  rewrite unwrap_fenced. cbv zeta.
  now destruct (re_match_heading _).
Qed.

End Fenced.

End MarkdownFacts.

Section HeaderFacts.
Import HeaderRules.

(** ** The header check *)

Lemma after_first_contains (n h : pystr) :
  contains n h = true <-> exists r, after_first n h = Some r.
Proof.
  induction h as [|c h IH]; simpl; unfold startswith.
  - destruct (after_prefix n []); simpl; split; eauto; try discriminate.
    now intros [r [=]].
  - destruct (after_prefix n (c :: h)); simpl; [split; eauto|exact IH].
Qed.

Lemma after_first_In (n h r : pystr) (c : N) (n' : pystr) :
  n = c :: n' -> after_first n h = Some r -> In c h.
Proof.
  intros ->. induction h as [|d h IH]; simpl; [discriminate|].
  destruct (char_eqb c d) eqn:E.
  - apply char_eqb_eq in E. subst d. intros _. now left.
  - intros H. right. now apply IH.
Qed.

Lemma take_while_forallb (p q : N -> bool) (s : pystr) :
  forallb p s = true -> forallb p (take_while q s) = true.
Proof.
  induction s as [|c s IH]; simpl; [reflexivity|].
  intros H. apply andb_true_iff in H as [Hc Hs].
  destruct (q c); simpl; [|reflexivity]. now rewrite Hc, IH.
Qed.

Lemma re_star_nonspace (s : pystr) :
  existsb nonspace s = true ->
  exists g, re_star py_isspace re_dot_plus s = Some g /\ strip g <> [].
Proof.
  induction s as [|c s IH]; simpl; [discriminate|].
  unfold nonspace at 1. destruct (py_isspace c) eqn:Ec; simpl.
  - intros H. destruct (IH H) as (g & -> & Hg). eauto.
  - intros _. unfold re_dot_plus. simpl.
    assert (Hlf : (c =? LF) = false).
    { destruct (c =? LF) eqn:E; [|reflexivity].
      apply N.eqb_eq in E. subst c. discriminate. }
    rewrite Hlf. simpl. eexists. split; [reflexivity|].
    apply strip_nonspace. simpl. now rewrite Ec.
Qed.

Lemma re_star_allspace (s g : pystr) :
  forallb py_isspace s = true ->
  re_star py_isspace re_dot_plus s = Some g -> strip g = [].
Proof.
  induction s as [|c s IH]; simpl.
  - discriminate.
  - intros H. apply andb_true_iff in H as [Hc Hs]. rewrite Hc.
    destruct (re_star py_isspace re_dot_plus s) as [r|] eqn:E.
    + intros [= <-]. now apply IH.
    + unfold re_dot_plus.
      destruct (take_while _ (c :: s)) as [|x t] eqn:Et; [discriminate|].
      intros [= <-]. apply strip_nil_iff. rewrite <- Et.
      apply take_while_forallb. simpl. now rewrite Hc, Hs.
Qed.

Lemma after_first_cons (n : pystr) (c : N) (h : pystr) :
  after_first n (c :: h) =
  match after_prefix n (c :: h) with
  | Some r => Some r
  | None => after_first n h
  end.
Proof. reflexivity. Qed.

Lemma re_search_description_cons (c : N) (s : pystr) :
  re_search_description (c :: s) =
  match after_prefix DESCRIPTION (c :: s) with
  | Some rest =>
      match re_star py_isspace re_dot_plus rest with
      | Some g => Some g
      | None => re_search_description s
      end
  | None => re_search_description s
  end.
Proof.
  unfold re_search_description at 1; fold re_search_description.
  unfold re_match_description. fold DESCRIPTION.
  destruct (after_prefix DESCRIPTION (c :: s)); [|reflexivity].
  now destruct (re_star _ _ _).
Qed.

Lemma re_search_nonspace (s rest : pystr) :
  after_first DESCRIPTION s = Some rest -> existsb nonspace rest = true ->
  exists g, re_search_description s = Some g /\ strip g <> [].
Proof.
  induction s as [|c s IH]; intros Ha Hn.
  - discriminate.
  - rewrite after_first_cons in Ha. rewrite re_search_description_cons.
    destruct (after_prefix DESCRIPTION (c :: s)) as [r|].
    + injection Ha as ->. destruct (re_star_nonspace _ Hn) as (g & -> & Hg).
      eauto.
    + now apply IH.
Qed.

Lemma re_search_allspace (s : pystr) :
  (forall r, after_first DESCRIPTION s = Some r -> forallb py_isspace r = true) ->
  forall g, re_search_description s = Some g -> strip g = [].
Proof.
  induction s as [|c s IH]; intros Ha g.
  - discriminate.
  - rewrite re_search_description_cons.
    pose proof (after_first_cons DESCRIPTION c s) as Hc.
    destruct (after_prefix DESCRIPTION (c :: s)) as [r|] eqn:Ep.
    + specialize (Ha r Hc).
      destruct (re_star py_isspace re_dot_plus r) as [g'|] eqn:Es.
      * intros [= <-]. eapply re_star_allspace; eauto.
      * apply IH. intros r' Hr'. exfalso.
        apply after_prefix_Some in Ep.
        assert (Hs : s = u "escription:" ++ r).
        { change DESCRIPTION with (68 :: u "escription:") in Ep.
          now injection Ep. }
        rewrite Hs in Hr'.
        apply (after_first_In _ _ _ 68 (u "escription:") eq_refl) in Hr'.
        apply in_app_or in Hr' as [Hin|Hin].
        -- vm_compute in Hin. intuition discriminate.
        -- rewrite forallb_forall in Ha. specialize (Ha _ Hin). discriminate.
    + apply IH. intros r Hr. apply Ha. now rewrite Hc.
Qed.

Lemma missing_of_nil (head : pystr) :
  missing_of head = [] <->
  forall k, In k REQUIRED_KEYS -> contains k head = true.
Proof.
  unfold missing_of. split.
  - intros H k Hk. destruct (contains k head) eqn:E; [reflexivity|].
    assert (Hin : In k (List.filter (fun k => negb (contains k head)) REQUIRED_KEYS)).
    { apply filter_In. split; [exact Hk|]. now rewrite E. }
    rewrite H in Hin. destruct Hin.
  - intros H. destruct (List.filter _ _) as [|k l] eqn:E; [reflexivity|].
    assert (Hin : In k (List.filter (fun k => negb (contains k head)) REQUIRED_KEYS))
      by (rewrite E; now left).
    apply filter_In in Hin as [Hk Hc]. rewrite (H k Hk) in Hc. discriminate.
Qed.

Lemma filter_single {A} (f : A -> bool) (l : list A) (k : A) :
  List.NoDup l -> In k l -> f k = true ->
  (forall k', In k' l -> k' <> k -> f k' = false) ->
  List.filter f l = [k].
Proof.
  induction 1 as [|x l Hx Hnd IH]; intros Hin Hk Hothers; [destruct Hin|].
  simpl. destruct Hin as [->|Hin].
  - rewrite Hk. f_equal.
    assert (Hnone : forall y, In y l -> f y = false).
    { intros y Hy. apply Hothers; [now right|]. intros ->. contradiction. }
    clear -Hnone. induction l as [|y l IH]; [reflexivity|]. simpl.
    rewrite (Hnone y) by now left. apply IH. intros z Hz. apply Hnone. now right.
  - rewrite (Hothers x); [|now left|intros ->; contradiction].
    apply IH; auto. intros k' Hk' Hne. apply Hothers; [now right|exact Hne].
Qed.

Lemma REQUIRED_KEYS_NoDup : List.NoDup REQUIRED_KEYS.
Proof.
  apply NoDup_ListNoDup. apply (bool_decide_unpack _). vm_compute. reflexivity.
Qed.

Lemma check_header_present (source : pystr) (top_lines : Z) :
  missing_of (head_of source top_lines) = [] ->
  check_header_top source top_lines =
  match re_search_description (head_of source top_lines) with
  | Some g =>
      if is_nil (strip g)
      then mkHeaderCheckResult false [] msg_empty_description
      else mkHeaderCheckResult true [] msg_ok
  | None => mkHeaderCheckResult false [] msg_empty_description
  end.
Proof.
  intros H. unfold check_header_top. fold (missing_of (head_of source top_lines)).
  rewrite H. simpl.
  assert (Hd : contains (u "Description:") (head_of source top_lines) = true).
  { apply (proj1 (missing_of_nil _) H). vm_compute. tauto. }
  now rewrite Hd.
Qed.

End HeaderFacts.

Section SandboxFacts.
Import FsRo.

(** ** Paths *)

Lemma strip_parts_Some (pre l r : list pystr) :
  strip_parts pre l = Some r <-> l = pre ++ r.
Proof.
  revert l. induction pre as [|x pre IH]; intros l; simpl.
  - split; congruence.
  - destruct l as [|y l]; [split; discriminate|].
    destruct (str_eqb x y) eqn:E.
    + apply str_eqb_eq in E. subst y. rewrite IH. split; congruence.
    + apply str_eqb_neq in E. split; [discriminate|]. intros [= <- _].
      contradiction.
Qed.

Lemma relative_to_Some (p other q : Path) :
  relative_to p other = Some q <->
  absolute p = absolute other /\ absolute q = false
  /\ parts p = parts other ++ parts q.
Proof.
  unfold relative_to. destruct q as [qa qp]. simpl.
  destruct (Bool.eqb (absolute p) (absolute other)) eqn:E.
  - apply Bool.eqb_prop in E.
    destruct (strip_parts (parts other) (parts p)) as [rest|] eqn:Es.
    + apply strip_parts_Some in Es. split.
      * intros [= <- <-]. auto.
      * intros (_ & -> & H). rewrite Es in H.
        apply app_inv_head in H. now subst.
    + split; [discriminate|]. intros (_ & _ & H).
      apply strip_parts_Some in H. congruence.
  - split; [discriminate|]. intros (H & _). rewrite H in E.
    now rewrite Bool.eqb_reflx in E.
Qed.

Lemma joinrealpath_nil (w : World) (strict : bool) (fuel : nat)
    (path : list pystr) :
  joinrealpath w strict (S fuel) path [] = Ok path.
Proof. reflexivity. Qed.

Lemma joinrealpath_cons (w : World) (strict : bool) (fuel : nat)
    (path : list pystr) (name : pystr) (rest : list pystr) :
  joinrealpath w strict (S fuel) path (name :: rest) =
  if is_nil name || str_eqb name (u ".")
  then joinrealpath w strict (S fuel) path rest
  else if str_eqb name (u "..")
  then joinrealpath w strict (S fuel) (removelast path) rest
  else
    match lookup_node (tree w) (path ++ [name]) with
    | Some (Symlink target) =>
        match joinrealpath w strict fuel
                (if absolute target then [] else path) (parts target) with
        | Ok path' => joinrealpath w strict (S fuel) path' rest
        | Err e => Err e
        end
    | Some _ => joinrealpath w strict (S fuel) (path ++ [name]) rest
    | None =>
        if strict then Err (FileNotFoundError (mkPath true (path ++ [name])))
        else joinrealpath w strict (S fuel) (path ++ [name]) rest
    end.
Proof. reflexivity. Qed.

Lemma clean_inv (w : World) (path : list pystr) (name : pystr) :
  clean w (path ++ [name]) ->
  clean w path /\ normal_name name = true /\ not_link w (path ++ [name]).
Proof.
  intros H. inversion H as [E|path' name' Hc Hn Hl E].
  - destruct path; discriminate.
  - apply app_inj_tail in E as [-> ->]. auto.
Qed.

Lemma clean_prefix (w : World) (a b : list pystr) :
  clean w (a ++ b) -> clean w a.
Proof.
  induction b as [|x b IH] using rev_ind.
  - now rewrite app_nil_r.
  - rewrite app_assoc. intros H. apply clean_inv in H as [H _]. auto.
Qed.

Lemma clean_removelast (w : World) (path : list pystr) :
  clean w path -> clean w (removelast path).
Proof.
  intros [|p name Hc _ _]; [constructor|]. now rewrite removelast_last.
Qed.

(** Resolving a canonical path gives it back. *)
Lemma joinrealpath_clean_id (w : World) (fuel : nat) (rest path : list pystr) :
  clean w (path ++ rest) ->
  joinrealpath w false (S fuel) path rest = Ok (path ++ rest).
Proof.
  revert path. induction rest as [|name rest IH]; intros path H.
  - now rewrite joinrealpath_nil, app_nil_r.
  - rewrite joinrealpath_cons.
    change (path ++ name :: rest) with (path ++ [name] ++ rest) in *.
    rewrite app_assoc in *.
    destruct (clean_inv w path name (clean_prefix _ _ _ H)) as (_ & Hn & Hl).
    unfold normal_name in Hn. apply andb_true_iff in Hn as [H1 H2].
    apply negb_true_iff in H1, H2. rewrite H1, H2.
    destruct (lookup_node (tree w) (path ++ [name])) as [[| |t]|] eqn:E;
      try (now apply IH).
    exfalso. now apply (Hl t).
Qed.

(** What [joinrealpath] returns from a canonical start is canonical. *)
Lemma joinrealpath_clean (w : World) (strict : bool) (fuel : nat) :
  forall rest path out,
    clean w path -> joinrealpath w strict fuel path rest = Ok out ->
    clean w out.
Proof.
  induction fuel as [|fuel IHf]; [discriminate|].
  induction rest as [|name rest IH]; intros path out Hc.
  - rewrite joinrealpath_nil. now intros [= <-].
  - rewrite joinrealpath_cons.
    destruct (is_nil name || str_eqb name (u ".")) eqn:E1; [now apply IH|].
    destruct (str_eqb name (u "..")) eqn:E2.
    { apply IH. now apply clean_removelast. }
    assert (Hn : normal_name name = true)
      by (unfold normal_name; now rewrite E1, E2).
    destruct (lookup_node (tree w) (path ++ [name])) as [[| |t]|] eqn:E.
    + apply IH. constructor; auto. intros t. congruence.
    + apply IH. constructor; auto. intros t. congruence.
    + destruct (joinrealpath w strict fuel _ (parts t)) as [path'|] eqn:Er;
        [|discriminate].
      apply IH. eapply IHf; [|exact Er]. destruct (absolute t); [constructor|auto].
    + destruct strict; [discriminate|].
      apply IH. constructor; auto. intros t. congruence.
Qed.

Lemma resolve_Ok (w : World) (strict : bool) (p x : Path) :
  resolve w strict p = Ok x ->
  absolute x = true
  /\ joinrealpath w strict (S (symlink_budget w))
       (if absolute p then [] else cwd w) (parts p) = Ok (parts x).
Proof.
  unfold resolve. destruct (joinrealpath _ _ _ _ _) as [ps|]; [|discriminate].
  simpl. now intros [= <-].
Qed.

Lemma resolve_clean (w : World) (strict : bool) (p x : Path) :
  absolute p = true -> resolve w strict p = Ok x ->
  absolute x = true /\ clean w (parts x).
Proof.
  intros Ha H. apply resolve_Ok in H as [Hx Hj]. rewrite Ha in Hj.
  split; [exact Hx|]. eapply joinrealpath_clean; [|exact Hj]. constructor.
Qed.

Lemma resolve_canonical (w : World) (x : Path) :
  absolute x = true -> clean w (parts x) -> resolve w false x = Ok x.
Proof.
  intros Ha Hc. unfold resolve. rewrite Ha.
  rewrite (joinrealpath_clean_id w _ (parts x) []) by exact Hc.
  simpl. destruct x as [a ps]. simpl in *. now subst.
Qed.

Lemma expanduser_absolute (w : World) (p : Path) :
  absolute p = true -> expanduser w p = Ok p.
Proof. intros H. unfold expanduser. now rewrite H. Qed.

Lemma new_fs_absolute (w : World) (root : Path) (fs : ReadOnlySandboxFS) :
  new_fs w root = Ok fs -> absolute (root_dir fs) = true.
Proof.
  unfold new_fs. intros H. apply bind_Ok in H as (r0 & _ & H).
  apply bind_Ok in H as (r & Hr & [= <-]). simpl.
  now apply resolve_Ok in Hr as [Hr _].
Qed.

Lemma In_insert_sorted (x y : Path) (l : list Path) :
  In y (insert_sorted x l) -> y = x \/ In y l.
Proof.
  induction l as [|z l IH]; simpl.
  - intros [<-|[]]. now left.
  - destruct (path_ltb z x); simpl.
    + intros [<-|H]; [right; now left|]. destruct (IH H); auto.
    + intros [<-|H]; auto.
Qed.

Lemma In_sorted (y : Path) (l : list Path) : In y (sorted l) -> In y l.
Proof.
  induction l as [|x l IH]; simpl; [auto|].
  intros H. apply In_insert_sorted in H as [->|H]; auto.
Qed.

Lemma list_python_files_absolute (w : World) (fs : ReadOnlySandboxFS) (f : Path) :
  In f (list_python_files w fs) -> absolute f = absolute (root_dir fs).
Proof.
  unfold list_python_files.
  destruct (lookup_node (tree w) (parts (root_dir fs))); [|intros []].
  intros H. apply In_sorted in H. apply in_map_iff in H as (ps & <- & _).
  reflexivity.
Qed.

(** The candidate that [_resolve_under_root] resolves. *)
Lemma resolve_under_root_candidate (w : World) (fs : ReadOnlySandboxFS)
    (path : Path) :
  absolute (root_dir fs) = true ->
  _resolve_under_root w fs path =
  (let! resolved := resolve w false (path_join (root_dir fs) path) in
   if negb (is_relative_to resolved (root_dir fs))
   then Err (SandboxViolation resolved)
   else Ok resolved).
Proof.
  intros Hr. unfold _resolve_under_root, path_join.
  destruct (absolute path) eqn:Ea; simpl negb; cbv iota.
  - now rewrite expanduser_absolute.
  - rewrite expanduser_absolute; [reflexivity|exact Hr].
Qed.

Lemma relpath_Ok (w : World) (fs : ReadOnlySandboxFS) (f P : Path) :
  absolute f = true ->
  relpath w fs f = Ok P ->
  exists x, resolve w false f = Ok x /\ relative_to x (root_dir fs) = Some P.
Proof.
  intros Ha. unfold relpath. rewrite expanduser_absolute by exact Ha. simpl.
  destruct (resolve w false f) as [x|]; [|discriminate]. simpl.
  unfold is_relative_to.
  destruct (relative_to x (root_dir fs)) as [r|] eqn:E; simpl; [|discriminate].
  intros [= <-]. exists x. split; [reflexivity|exact E].
Qed.

Lemma relpath_roundtrip (w : World) (fs : ReadOnlySandboxFS) (f P : Path) :
  absolute (root_dir fs) = true -> absolute f = true ->
  relpath w fs f = Ok P ->
  (let! r := _resolve_under_root w fs P in relpath w fs r) = Ok P.
Proof.
  intros Hroot Hf H.
  destruct (relpath_Ok w fs f P Hf H) as (x & Hx & Hrel).
  destruct (resolve_clean w false f x Hf Hx) as [Hxa Hxc].
  pose proof Hrel as Hrel'.
  apply relative_to_Some in Hrel as (Habs & HP & Hparts).
  assert (Hcand : path_join (root_dir fs) P = x).
  { unfold path_join. rewrite HP. destruct x as [xa xp]. simpl in *.
    now rewrite Hroot, <- Hparts, Hxa. }
  assert (Hres : resolve w false x = Ok x) by now apply resolve_canonical.
  assert (Hin : is_relative_to x (root_dir fs) = true)
    by (unfold is_relative_to; now rewrite Hrel').
  rewrite resolve_under_root_candidate by exact Hroot.
  rewrite Hcand, Hres. simpl. rewrite Hin. simpl.
  unfold relpath. rewrite expanduser_absolute by exact Hxa. simpl.
  rewrite Hres. simpl. now rewrite Hin, Hrel'.
Qed.

End SandboxFacts.

Section StageFacts.
Import GraphAgent.

(** ** The stages *)

Section Stages.

Variable scan_for_secrets : pystr -> list SecretFinding.
Variable repr_str : pystr -> pystr.
Variable w : World.
Variable fs : FsRo.ReadOnlySandboxFS.

Lemma check_headers_loop_lookup (files : list pystr) :
  forall (acc m : gmap pystr pystr),
    check_headers_loop w fs files acc = Ok m ->
    forall rel : pystr,
      (In rel files ->
       m !! rel = match issue_of w fs rel with
                  | Some msg => Some msg
                  | None => acc !! rel
                  end)
      /\ (~ In rel files -> m !! rel = acc !! rel).
Proof.
  induction files as [|r0 rest IH]; intros acc m H rel.
  - simpl in H. injection H as <-. split; [intros []|reflexivity].
  - simpl in H.
    destruct (FsRo.read_text w fs (Path_of_str r0)) as [src|] eqn:Er;
      [|discriminate].
    simpl in H. specialize (IH _ _ H rel). destruct IH as [IH1 IH2].
    assert (Hi : issue_of w fs r0 =
                 if negb (HeaderRules.ok (HeaderRules.check_header src))
                 then Some (HeaderRules.message (HeaderRules.check_header src))
                 else None)
      by (unfold issue_of; now rewrite Er).
    destruct (decide (rel = r0)) as [->|Hne].
    + split; [intros _|intros Hn; exfalso; apply Hn; now left].
      destruct (in_dec (fun a b : pystr => decide (a = b)) r0 rest) as [Hin|Hnin].
      * rewrite (IH1 Hin), Hi.
        destruct (negb _); [reflexivity|reflexivity].
      * rewrite (IH2 Hnin), Hi.
        destruct (negb _); [now rewrite lookup_insert_eq|reflexivity].
    + assert (Hacc : (if negb (HeaderRules.ok (HeaderRules.check_header src))
                      then <[r0:=HeaderRules.message (HeaderRules.check_header src)]> acc
                      else acc) !! rel = acc !! rel).
      { destruct (negb _); [|reflexivity]. now rewrite lookup_insert_ne. }
      split.
      * intros [->|Hin]; [contradiction|]. now rewrite (IH1 Hin), Hacc.
      * intros Hn. rewrite IH2, Hacc; [reflexivity|].
        intros Hin. apply Hn. now right.
Qed.

Lemma check_headers_loop_readable (files : list pystr) :
  forall (acc m : gmap pystr pystr),
    check_headers_loop w fs files acc = Ok m ->
    forall rel, In rel files -> readable w fs rel.
Proof.
  induction files as [|r0 rest IH]; intros acc m H rel; [intros []|].
  simpl in H.
  destruct (FsRo.read_text w fs (Path_of_str r0)) as [src|] eqn:Er;
    [|discriminate].
  intros [<-|Hin]; [now exists src|]. eapply IH; eauto.
Qed.

(** One turn of a stage loop over a file that can be read. *)
Ltac read_first H IH :=
  let src := fresh "src" in
  destruct (H _ (or_introl eq_refl)) as [src ->]; simpl;
  apply IH; intros; try assumption; apply H; now right.

Lemma check_headers_loop_completes (files : list pystr) :
  forall acc : gmap pystr pystr,
    (forall rel, In rel files -> readable w fs rel) ->
    exists m, check_headers_loop w fs files acc = Ok m.
Proof.
  induction files as [|r0 rest IH]; intros acc H; simpl; [eauto|].
  read_first H IH.
Qed.

Lemma check_headers_loop_abort (before after : list pystr) (rel : pystr) (e : exn) :
  forall acc : gmap pystr pystr,
    (forall r, In r before -> readable w fs r) ->
    FsRo.read_text w fs (Path_of_str rel) = Err e ->
    check_headers_loop w fs (before ++ rel :: after) acc = Err e.
Proof.
  induction before as [|r0 before IH]; intros acc H He; simpl.
  - now rewrite He.
  - read_first H IH.
Qed.

Lemma scan_secrets_loop_completes (files : list pystr) :
  forall acc : gmap pystr (list (list (pystr * pyval))),
    (forall rel, In rel files -> readable w fs rel) ->
    exists m, scan_secrets_loop scan_for_secrets w fs files acc = Ok m.
Proof.
  induction files as [|r0 rest IH]; intros acc H; simpl; [eauto|].
  read_first H IH.
Qed.

Lemma scan_secrets_loop_abort (before after : list pystr) (rel : pystr) (e : exn) :
  forall acc : gmap pystr (list (list (pystr * pyval))),
    (forall r, In r before -> readable w fs r) ->
    FsRo.read_text w fs (Path_of_str rel) = Err e ->
    scan_secrets_loop scan_for_secrets w fs (before ++ rel :: after) acc = Err e.
Proof.
  induction before as [|r0 before IH]; intros acc H He; simpl.
  - now rewrite He.
  - read_first H IH.
Qed.

Lemma generate_doc_out_path (llm : Docgen.LLM) (rel : pystr) (src : pystr)
    (out : Path) (req : pystr) (d d' : Disk) (res : Docgen.DocGenResult) :
  Docgen.generate_doc_for_file repr_str llm (Path_of_str rel) src out req d
    = (d', Ok res) ->
  path_str (Docgen.out_path res) = doc_target out rel.
Proof.
  unfold Docgen.generate_doc_for_file, Docgen.generate_doc_for_file_with.
  destruct (_ || _); [discriminate|].
  destruct (Docgen.prompt_source _ _); [|discriminate].
  destruct (Docgen.generated_document _ _ _ _ _ _ _) as [[[o data] hint]|] eqn:E;
    [|discriminate].
  intros [= _ <-]. simpl. unfold doc_target. f_equal.
  unfold Docgen.generated_document in E.
  apply bind_Ok in E as (prompt & _ & E). apply bind_Ok in E as (tm & _ & E).
  destruct (is_nil _); [discriminate|].
  apply bind_Ok in E as (dat & _ & [= <- _ _]). reflexivity.
Qed.

Lemma generate_docs_loop_lookup (llm : Docgen.LLM) (out : Path) (req : pystr)
    (files : list pystr) :
  forall (acc m : gmap pystr pystr) (d d' : Disk),
    generate_docs_loop repr_str w fs llm out req files acc d = (d', Ok m) ->
    forall rel : pystr,
      (In rel files -> m !! rel = Some (doc_target out rel))
      /\ (~ In rel files -> m !! rel = acc !! rel).
Proof.
  induction files as [|r0 rest IH]; intros acc m d d' H rel.
  - simpl in H. injection H as _ <-. split; [intros []|reflexivity].
  - simpl in H.
    destruct (FsRo.read_text w fs (Path_of_str r0)) as [src|]; [|discriminate].
    destruct (Docgen.generate_doc_for_file _ _ _ _ _ _ _) as [d1 [res|]] eqn:Eg;
      [|discriminate].
    apply generate_doc_out_path in Eg. rewrite Eg in H.
    specialize (IH _ _ _ _ H rel). destruct IH as [IH1 IH2].
    destruct (decide (rel = r0)) as [->|Hne].
    + split; [intros _|intros Hn; exfalso; apply Hn; now left].
      destruct (in_dec (fun a b : pystr => decide (a = b)) r0 rest) as [Hin|Hnin].
      * exact (IH1 Hin).
      * now rewrite (IH2 Hnin), lookup_insert_eq.
    + split.
      * intros [->|Hin]; [contradiction|exact (IH1 Hin)].
      * intros Hn. rewrite IH2.
        -- rewrite lookup_insert_ne; [reflexivity|congruence].
        -- intros Hin. apply Hn. now right.
Qed.

End Stages.

End StageFacts.

Section DocumentFacts.
Import Docgen.

(** ** Output file names *)

Lemma joiner_free_tail (c : N) (p : pystr) :
  joiner_free (c :: p) -> joiner_free p.
Proof.
  intros [H1 H2]. split.
  - simpl in H1. now apply orb_false_iff in H1 as [_ H1].
  - destruct (endswith UNDERSCORE p) eqn:E; [|reflexivity].
    apply endswith_true in E as [r ->].
    assert (H : endswith UNDERSCORE (c :: r ++ UNDERSCORE) = true)
      by (apply endswith_true; now exists (c :: r)).
    congruence.
Qed.

Lemma joiner_free_head (p t : pystr) :
  joiner_free p -> p <> [] -> joined_tail t ->
  forall r, JOINER ++ r = p ++ t -> False.
Proof.
  intros [H1 H2] Hne Ht r E. change JOINER with [95; 95] in *.
  destruct p as [|c [|d p]]; [congruence| |].
  - destruct Ht as [->|[r' ->]]; simpl in E.
    + discriminate.
    + injection E as <- _. discriminate.
  - simpl in E. injection E as <- <- _. discriminate.
Qed.

Lemma joined_first_part (p1 : pystr) :
  forall p2 t1 t2,
    joiner_free p1 -> joiner_free p2 -> joined_tail t1 -> joined_tail t2 ->
    p1 ++ t1 = p2 ++ t2 -> p1 = p2 /\ t1 = t2.
Proof.
  induction p1 as [|c p1 IH]; intros p2 t1 t2 H1 H2 Ht1 Ht2 E.
  - destruct p2 as [|c p2]; [auto|]. exfalso. simpl in E.
    destruct Ht1 as [->|[r ->]]; [discriminate|].
    eapply (joiner_free_head (c :: p2) t2); eauto; discriminate.
  - destruct p2 as [|d p2].
    + exfalso. simpl in E.
      destruct Ht2 as [->|[r ->]]; [discriminate|].
      eapply (joiner_free_head (c :: p1) t1); eauto; discriminate.
    + injection E as -> E.
      destruct (IH p2 t1 t2) as [-> ->]; eauto using joiner_free_tail.
Qed.

Lemma str_join_cons_tail (sep x : pystr) (l : list pystr) :
  str_join sep (x :: l) =
  x ++ match l with [] => [] | _ => sep ++ str_join sep l end.
Proof. destruct l; simpl; [now rewrite app_nil_r|reflexivity]. Qed.

Lemma joined_tail_join (l : list pystr) :
  joined_tail match l with [] => [] | _ => JOINER ++ str_join JOINER l end.
Proof. destruct l; [now left|right; eauto]. Qed.

Lemma str_join_nonempty (sep x : pystr) (l : list pystr) :
  x <> [] -> str_join sep (x :: l) <> [].
Proof.
  rewrite str_join_cons_tail. intros H E. apply app_eq_nil in E as [E _].
  contradiction.
Qed.

Lemma str_join_joiner_inj (l1 : list pystr) :
  forall l2,
    Forall good_part l1 -> Forall good_part l2 ->
    str_join JOINER l1 = str_join JOINER l2 -> l1 = l2.
Proof.
  induction l1 as [|p1 l1 IH]; intros [|p2 l2] H1 H2 E; [reflexivity| | |].
  - exfalso. inversion H2 as [|? ? [Hne _] _]; subst.
    symmetry in E. revert E. now apply str_join_nonempty.
  - exfalso. inversion H1 as [|? ? [Hne _] _]; subst.
    revert E. now apply str_join_nonempty.
  - inversion H1 as [|? ? [Hn1 Hj1] H1']; subst.
    inversion H2 as [|? ? [Hn2 Hj2] H2']; subst.
    rewrite !str_join_cons_tail in E.
    apply joined_first_part in E as [-> E]; auto using joined_tail_join.
    f_equal. destruct l1 as [|a l1], l2 as [|b l2]; try discriminate; auto.
    apply IH; auto. now apply app_inv_head in E.
Qed.

Lemma safe_doc_filename_relative (relpath : Path) :
  absolute relpath = false ->
  safe_doc_filename relpath = str_join JOINER (parts relpath) ++ MD_SUFFIX.
Proof. intros H. unfold safe_doc_filename, py_parts. now rewrite H. Qed.

Lemma safe_doc_filename_inj (p q : Path) :
  absolute p = false -> absolute q = false ->
  Forall good_part (parts p) -> Forall good_part (parts q) ->
  safe_doc_filename p = safe_doc_filename q -> p = q.
Proof.
  intros Hp Hq Gp Gq E. rewrite !safe_doc_filename_relative in E by assumption.
  apply app_inv_tail in E. apply str_join_joiner_inj in E; auto.
  destruct p, q. simpl in *. congruence.
Qed.

Lemma str_join_middle (sep : pystr) (pre suf : list pystr) :
  exists a b, forall d, str_join sep (pre ++ d :: suf) = a ++ d ++ b.
Proof.
  induction pre as [|x pre (a & b & IH)].
  - exists [], match suf with [] => [] | _ => sep ++ str_join sep suf end.
    intros d. simpl app. apply str_join_cons_tail.
  - exists (x ++ sep ++ a), b. intros d.
    change ((x :: pre) ++ d :: suf) with (x :: (pre ++ d :: suf)).
    rewrite str_join_cons_tail, IH.
    destruct (pre ++ d :: suf) eqn:E; [destruct pre; discriminate|].
    now rewrite <- !app_assoc.
Qed.

Lemma safe_doc_filename_sibling (pre suf : list pystr) (d1 d2 : pystr) :
  safe_doc_filename (mkPath false (pre ++ d1 :: suf))
  = safe_doc_filename (mkPath false (pre ++ d2 :: suf)) ->
  d1 = d2.
Proof.
  rewrite !safe_doc_filename_relative by reflexivity. simpl parts.
  intros E. apply app_inv_tail in E.
  destruct (str_join_middle JOINER pre suf) as (a & b & H).
  rewrite !H in E. apply app_inv_head in E. now apply app_inv_tail in E.
Qed.

(** ** What [generate_doc_for_file] writes *)

Lemma generate_doc_written (repr_str : pystr -> pystr) (llm : LLM)
    (relpath : Path) (source : pystr) (out_dir : Path) (request : pystr)
    (t : list segment) (m : Z) (d d' : Disk) (res : DocGenResult) :
  generate_doc_for_file_with repr_str llm relpath source out_dir request t m d
    = (d', Ok res) ->
  exists text data body c,
    written d' = (out_path res, data) :: written d
    /\ out_path res = path_join out_dir (Path_of_str (safe_doc_filename relpath))
    /\ encode_utf8 (text ++ [LF]) = Ok data
    /\ bytes_written res = Z.of_nat (length data)
    /\ text = body ++ [c] /\ py_isspace c = false.
Proof.
  unfold generate_doc_for_file_with.
  destruct (_ || _); [discriminate|].
  destruct (prompt_source _ _) as [src'|]; [|discriminate].
  destruct (generated_document _ _ _ _ _ _ _) as [[[o data] hint]|] eqn:E;
    [|discriminate].
  intros [= <- <-]. simpl.
  unfold generated_document in E.
  apply bind_Ok in E as (prompt & _ & E). apply bind_Ok in E as (tm & _ & E).
  pose proof (postprocess_strip_nonempty (fst tm) relpath) as Hne.
  destruct (is_nil _); [discriminate|].
  apply bind_Ok in E as (dat & He & [= <- <- _]).
  set (text := _postprocess_markdown (fst tm) relpath) in *.
  destruct (rstrip_shape text) as [Hr|(body & c & Hr & Hc)].
  - exfalso. apply Hne. apply strip_nil_iff. now apply rstrip_nil_iff.
  - exists (rstrip text), dat, body, c. auto 10.
Qed.

(** ** Responses without text, and content blocks *)

Lemma has_str_dict_get (d : list (pystr * pyval)) (k : pystr) :
  has_str (PDict d) = false -> has_str (dict_get d k) = false.
Proof.
  unfold dict_get. simpl. induction d as [|[k' v] d IH]; simpl; [reflexivity|].
  intros H. apply orb_false_iff in H as [Hv Hd].
  destruct (str_eqb k' k); [exact Hv|now apply IH].
Qed.

Lemma first_truthy_none (f : pyval -> option pystr) (l : list pyval) :
  (forall x, In x l -> f x = None) -> first_truthy f l = None.
Proof.
  induction l as [|x l IH]; simpl; [reflexivity|]. intros H.
  rewrite (H x) by now left. simpl. apply IH. intros y Hy. apply H. now right.
Qed.

Lemma no_str_list (l : list pyval) :
  has_str (PList l) = false -> forall x, In x l -> has_str x = false.
Proof.
  simpl. intros H x Hx. destruct (has_str x) eqn:E; [|reflexivity].
  assert (existsb has_str l = true) by (apply existsb_exists; eauto).
  congruence.
Qed.

Lemma no_str_values (d : list (pystr * pyval)) :
  has_str (PDict d) = false ->
  forall x, In x (List.map snd d) -> has_str x = false.
Proof.
  simpl. intros H x Hx. apply in_map_iff in Hx as ([k v] & <- & Hin).
  simpl. destruct (has_str v) eqn:E; [|reflexivity].
  assert (existsb (fun kv => has_str (snd kv)) d = true)
    by (apply existsb_exists; exists (k, v); auto).
  congruence.
Qed.

Lemma dig_no_str (fuel : nat) :
  forall v, has_str v = false -> dig fuel v = None.
Proof.
  induction fuel as [|fuel IH]; intros v H; [reflexivity|].
  destruct v as [| | | |l|d|]; try reflexivity; try discriminate.
  - simpl. apply first_truthy_none. intros x Hx. apply IH.
    now apply (no_str_list l).
  - assert (Hfm :
      match dict_get d (u "message") with
      | PDict msg =>
          match dict_get msg (u "content") with
          | PStr c => Some c
          | _ => None
          end
      | _ => None
      end = None).
    { pose proof (has_str_dict_get d (u "message") H) as Hm.
      destruct (dict_get d (u "message")) as [| | | | |msg|]; try reflexivity.
      pose proof (has_str_dict_get msg (u "content") Hm) as Hc.
      destruct (dict_get msg (u "content")); try reflexivity. discriminate. }
    assert (Hfc :
      match dict_get d (u "choices") with
      | PList ch => first_truthy (dig fuel) ch
      | _ => None
      end = None).
    { pose proof (has_str_dict_get d (u "choices") H) as Hc.
      destruct (dict_get d (u "choices")) as [| | | |ch| |]; try reflexivity.
      apply first_truthy_none. intros x Hx. apply IH.
      now apply (no_str_list ch). }
    simpl. rewrite Hfm, Hfc. simpl.
    apply first_truthy_none. intros x Hx. apply IH.
    now apply (no_str_values d).
Qed.

Lemma first_str_key_no_str (d : list (pystr * pyval)) (ks : list pystr) :
  has_str (PDict d) = false -> first_str_key d ks = None.
Proof.
  intros H. induction ks as [|k ks IH]; simpl; [reflexivity|].
  pose proof (has_str_dict_get d k H) as Hk.
  destruct (dict_get d k); try discriminate; exact IH.
Qed.

Lemma extract_text_no_str (repr_str : pystr -> pystr) (d : list (pystr * pyval)) :
  has_str (PDict d) = false ->
  _extract_text repr_str (PDict d) = Ok (py_str repr_str (PDict d)).
Proof.
  intros H. unfold _extract_text. cbn [getattr bind].
  rewrite first_str_key_no_str by exact H.
  unfold _dig_for_string. now rewrite dig_no_str.
Qed.

Lemma text_parts_blocks (blocks : list pyval) (texts : list pystr) :
  Forall2 is_text_block blocks texts ->
  text_parts blocks = Ok (List.map PStr texts).
Proof.
  induction 1 as [|v t blocks texts (d & -> & Hty & Htx) _ IH]; [reflexivity|].
  simpl. rewrite Hty, Htx. simpl.
  assert (Hg : getitem d (u "text") = Ok (PStr t)).
  { rewrite getitem_of_get; rewrite Htx; reflexivity. }
  rewrite Hg, IH. reflexivity.
Qed.

Lemma join_vals_strs (sep : pystr) (texts : list pystr) :
  join_vals sep (List.map PStr texts) = Ok (str_join sep texts).
Proof.
  induction texts as [|t texts IH]; [reflexivity|].
  destruct texts as [|t' texts]; [reflexivity|].
  change (List.map PStr (t :: t' :: texts))
    with (PStr t :: List.map PStr (t' :: texts)).
  simpl join_vals. simpl in IH. rewrite IH. reflexivity.
Qed.

Lemma extract_text_blocks (repr_str : pystr -> pystr)
    (attrs : list (pystr * pyval)) (s r : pystr)
    (blocks : list pyval) (texts : list pystr) :
  assoc_val (u "content") attrs = Some (PList blocks) ->
  Forall2 is_text_block blocks texts -> texts <> [] ->
  _extract_text repr_str (PObj attrs s r) = Ok (str_join [LF] texts).
Proof.
  intros Ha Hb Hne. unfold _extract_text, getattr. rewrite Ha.
  rewrite (text_parts_blocks _ _ Hb). simpl bind.
  destruct texts as [|t texts]; [congruence|].
  change (is_nil (List.map PStr (t :: texts))) with false. simpl negb. cbv iota.
  now rewrite join_vals_strs.
Qed.

(** ** Truncation *)

Lemma truncate_source_cuts (source : pystr) (max_chars h t : Z) :
  int_times max_chars F0_65 = Ok h -> int_times max_chars F0_25 = Ok t ->
  (0 <= h)%Z -> (0 < t)%Z ->
  _truncate_source source max_chars =
  Ok (firstn (Z.to_nat h) source ++ TRUNCATION_NOTE
      ++ skipn (length source - Z.to_nat t) source).
Proof.
  intros Hh Ht H0 H1. unfold _truncate_source. rewrite Hh, Ht. simpl bind.
  unfold slice_to, slice_from.
  destruct (0 <=? h)%Z eqn:E1; [|apply Z.leb_gt in E1; lia].
  destruct (0 <=? - t)%Z eqn:E2; [apply Z.leb_le in E2; lia|].
  now rewrite Z.opp_involutive.
Qed.

Lemma prompt_source_default (source : pystr) :
  (120000 < Z.of_nat (length source))%Z ->
  exists s,
    prompt_source source 120000 = Ok s
    /\ s = firstn (Z.to_nat 78000) source ++ TRUNCATION_NOTE
           ++ skipn (length source - Z.to_nat 30000) source
    /\ (Z.of_nat (length s) <= 120000)%Z
    /\ contains TRUNCATION_NOTE s = true.
Proof.
  intros H. eexists. split; [|split; [reflexivity|split]].
  - unfold prompt_source. apply Z.ltb_lt in H. rewrite H.
    rewrite (truncate_source_cuts source 120000 78000 30000);
      [reflexivity|reflexivity|reflexivity|lia|lia].
  - rewrite !length_app, length_firstn, length_skipn.
    change (length TRUNCATION_NOTE) with 171%nat. lia.
  - apply contains_true. eauto.
Qed.

Lemma prompt_source_within (source : pystr) (max_source_chars : Z) :
  (Z.of_nat (length source) <= max_source_chars)%Z ->
  prompt_source source max_source_chars = Ok source.
Proof.
  intros H. unfold prompt_source.
  destruct (_ <? _)%Z eqn:E; [apply Z.ltb_lt in E; lia|reflexivity].
Qed.

End DocumentFacts.

Section SandboxProperties.
Import FsRo.

(** ** The sandbox *)

Lemma read_text_max_violation (w : World) (fs : ReadOnlySandboxFS) (path p : Path)
    (max_bytes : Z) :
  _resolve_under_root w fs path = Err (SandboxViolation p) ->
  read_text_max w fs path max_bytes = Err (SandboxViolation p).
Proof. intros H. unfold read_text_max. now rewrite H. Qed.



End SandboxProperties.

Section PipelineProperties.
Import GraphAgent.

Lemma node_check_headers_Ok (w : World) (st st' : AgentState) :
  node_check_headers w st = Ok st' ->
  exists fs m,
    FsRo.new_fs w (Path_of_str (root_dir st)) = Ok fs
    /\ check_headers_loop w fs (file_list st) ∅ = Ok m
    /\ st' = with_header_issues st m.
Proof.
  unfold node_check_headers. intros H.
  apply bind_Ok in H as (fs & Hfs & H). apply bind_Ok in H as (m & Hm & [= <-]).
  eauto.
Qed.

Lemma node_scan_secrets_Ok (scan : pystr -> list SecretFinding) (w : World)
    (st st' : AgentState) :
  node_scan_secrets scan w st = Ok st' ->
  exists m, st' = with_secrets st m.
Proof.
  unfold node_scan_secrets. intros H.
  apply bind_Ok in H as (fs & Hfs & H). apply bind_Ok in H as (m & Hm & [= <-]).
  eauto.
Qed.

Lemma node_generate_docs_Ok (get_llm : pyval -> Docgen.LLM)
    (repr_str : pystr -> pystr) (w : World) (st st' : AgentState)
    (config : option (list (pystr * pyval))) (d d' : Disk) :
  node_generate_docs get_llm repr_str w st config d = (d', Ok st') ->
  exists fs llm out0 out m,
    expanduser w (Path_of_str (out_dir st)) = Ok out0
    /\ resolve w false out0 = Ok out
    /\ generate_docs_loop repr_str w fs llm out (request st) (file_list st) ∅ d
       = (d', Ok m)
    /\ st' = with_docs st m.
Proof.
  unfold node_generate_docs.
  destruct (bind _ _) as [[[fs llm] out]|] eqn:Eb; [|discriminate].
  apply bind_Ok in Eb as (fs0 & _ & Eb). apply bind_Ok in Eb as (mid & _ & Eb).
  apply bind_Ok in Eb as (out0 & Ho0 & Eb).
  apply bind_Ok in Eb as (out1 & Ho & [= -> _ ->]).
  destruct (generate_docs_loop _ _ _ _ _ _ _ _ _) as [d1 [m|]] eqn:E;
    [|discriminate].
  intros [= <- <-]. exists fs, llm, out0, out, m. auto.
Qed.

Lemma In_elem_of (x : pystr) (l : list pystr) : In x l <-> x ∈ l.
Proof. symmetry. apply list_elem_of_In. Qed.

(** C3, as the code has it: a read failure is not isolated.  The first
    file of the list whose read fails makes [node_check_headers] and
    [node_scan_secrets] raise that file's exception: no state comes back,
    so nothing is recorded for the file and the files after it are not
    processed.  When every file of the list can be read, both stages
    complete. *)
Theorem read_failure_aborts_stage :
  (forall (scan : pystr -> list SecretFinding) (w : World) (st : AgentState)
          (fs : FsRo.ReadOnlySandboxFS) (before after : list pystr)
          (rel : pystr) (e : exn),
      FsRo.new_fs w (Path_of_str (root_dir st)) = Ok fs ->
      file_list st = before ++ rel :: after ->
      (forall r, In r before -> readable w fs r) ->
      FsRo.read_text w fs (Path_of_str rel) = Err e ->
      node_check_headers w st = Err e /\ node_scan_secrets scan w st = Err e)
  /\ (forall (scan : pystr -> list SecretFinding) (w : World) (st : AgentState)
             (fs : FsRo.ReadOnlySandboxFS),
         FsRo.new_fs w (Path_of_str (root_dir st)) = Ok fs ->
         (forall r, In r (file_list st) -> readable w fs r) ->
         (exists st', node_check_headers w st = Ok st')
         /\ (exists st', node_scan_secrets scan w st = Ok st')).
Proof.
  split.
  - intros scan w st fs before after rel e Hfs Hl Hb He.
    unfold node_check_headers, node_scan_secrets. rewrite Hfs, Hl. simpl bind.
    rewrite (check_headers_loop_abort w fs before after rel e ∅ Hb He).
    rewrite (scan_secrets_loop_abort scan w fs before after rel e ∅ Hb He).
    split; reflexivity.
  - intros scan w st fs Hfs Hall.
    unfold node_check_headers, node_scan_secrets. rewrite Hfs. simpl bind.
    destruct (check_headers_loop_completes w fs (file_list st) ∅ Hall) as [m ->].
    destruct (scan_secrets_loop_completes scan w fs (file_list st) ∅ Hall)
      as [m' ->].
    split; simpl; eauto.
Qed.

Lemma read_failure_aborts_stage_witness :
  let w := Sample.unreadable_world in
  let st := with_file_list Sample.start_state [u "d.py"; u "z.py"] in
  let e := FileNotFoundError (mkPath true [u "proj"; u "d.py"]) in
  FsRo.new_fs w (Path_of_str (root_dir st)) = Ok Sample.proj_fs
  /\ FsRo.read_text w Sample.proj_fs (Path_of_str (u "d.py")) = Err e
  /\ node_check_headers w st = Err e
  /\ node_scan_secrets Sample.no_secrets w st = Err e.
Proof.
  intros w st e.
  assert (H1 : FsRo.new_fs w (Path_of_str (root_dir st)) = Ok Sample.proj_fs)
    by (vm_compute; reflexivity).
  assert (H2 : FsRo.read_text w Sample.proj_fs (Path_of_str (u "d.py")) = Err e)
    by (vm_compute; reflexivity).
  split; [exact H1|split; [exact H2|]].
  apply (proj1 read_failure_aborts_stage Sample.no_secrets w st Sample.proj_fs
           [] [u "z.py"] (u "d.py") e H1 eq_refl); [|exact H2].
  intros r [].
Defined.

(** C3 as stated fails: in [/proj] with a directory named [d.py] (or a
    file over the size limit) before a readable [z.py], discovery lists
    both, and the header stage and the secret stage raise instead of
    recording an issue and going on to [z.py]. *)
Lemma unreadable_file_not_isolated :
  let st := with_file_list Sample.start_state [u "d.py"; u "z.py"] in
  let st' := with_file_list Sample.start_state [u "big.py"; u "z.py"] in
  node_discover_files Sample.unreadable_world Sample.start_state = Ok st
  /\ readable Sample.unreadable_world Sample.proj_fs (u "z.py")
  /\ node_check_headers Sample.unreadable_world st
     = Err (FileNotFoundError (mkPath true [u "proj"; u "d.py"]))
  /\ node_scan_secrets Sample.no_secrets Sample.unreadable_world st
     = Err (FileNotFoundError (mkPath true [u "proj"; u "d.py"]))
  /\ node_discover_files Sample.oversize_world Sample.start_state = Ok st'
  /\ node_check_headers Sample.oversize_world st'
     = Err (ValueError (FileTooLarge 2000001 (mkPath true [u "proj"; u "big.py"])))
  /\ node_scan_secrets Sample.no_secrets Sample.oversize_world st'
     = Err (ValueError (FileTooLarge 2000001 (mkPath true [u "proj"; u "big.py"]))).
Proof.
  repeat split; try (vm_compute; reflexivity).
  exists Sample.complete_source. vm_compute. reflexivity.
Qed.

Lemma check_headers_lookup (w : World) (st st' : AgentState) :
  node_check_headers w st = Ok st' ->
  exists fs,
    FsRo.new_fs w (Path_of_str (root_dir st)) = Ok fs
    /\ file_list st' = file_list st
    /\ (forall rel msg,
          header_issues st' !! rel = Some msg <->
          In rel (file_list st) /\ issue_of w fs rel = Some msg)
    /\ (forall rel,
          In rel (file_list st) -> header_issues st' !! rel = None ->
          exists src,
            FsRo.read_text w fs (Path_of_str rel) = Ok src
            /\ HeaderRules.ok (HeaderRules.check_header src) = true).
Proof.
  intros H. apply node_check_headers_Ok in H as (fs & m & Hfs & Hm & ->).
  exists fs. split; [exact Hfs|]. split; [reflexivity|]. simpl.
  pose proof (check_headers_loop_lookup w fs _ _ _ Hm) as Hl.
  assert (Hiff : forall rel msg,
            m !! rel = Some msg <->
            In rel (file_list st) /\ issue_of w fs rel = Some msg).
  { intros rel msg. destruct (Hl rel) as [H1 H2].
    destruct (in_dec (fun a b : pystr => decide (a = b)) rel (file_list st))
      as [Hin|Hnin].
    - rewrite (H1 Hin). destruct (issue_of w fs rel) as [msg'|].
      + split; [intros [= ->]; auto|intros [_ [= ->]]; reflexivity].
      + rewrite lookup_empty. split; [discriminate|intros [_ [=]]].
    - rewrite (H2 Hnin), lookup_empty. split; [discriminate|].
      intros [Hin _]. contradiction. }
  split; [exact Hiff|].
  intros rel Hin Hnone.
  destruct (check_headers_loop_readable w fs _ _ _ Hm rel Hin) as [src Hsrc].
  exists src. split; [exact Hsrc|].
  destruct (HeaderRules.ok (HeaderRules.check_header src)) eqn:E; [reflexivity|].
  assert (Hi : issue_of w fs rel
               = Some (HeaderRules.message (HeaderRules.check_header src)))
    by (unfold issue_of; now rewrite Hsrc, E).
  assert (Hs : m !! rel = Some (HeaderRules.message (HeaderRules.check_header src)))
    by (apply Hiff; auto).
  congruence.
Qed.

Lemma generate_docs_dom (get_llm : pyval -> Docgen.LLM)
    (repr_str : pystr -> pystr) (w : World) (st st' : AgentState)
    (config : option (list (pystr * pyval))) (d d' : Disk) :
  node_generate_docs get_llm repr_str w st config d = (d', Ok st') ->
  file_list st' = file_list st
  /\ header_issues st' = header_issues st
  /\ dom (docs st') = list_to_set (file_list st)
  /\ exists out0 out,
       expanduser w (Path_of_str (out_dir st)) = Ok out0
       /\ resolve w false out0 = Ok out
       /\ forall rel, In rel (file_list st) ->
                      docs st' !! rel = Some (doc_target out rel).
Proof.
  intros H.
  apply node_generate_docs_Ok
    in H as (fs & llm & out0 & out & m & Ho0 & Ho & Hm & ->).
  split; [reflexivity|]. split; [reflexivity|]. simpl.
  pose proof (generate_docs_loop_lookup repr_str w fs llm out _ _ _ _ _ _ Hm) as Hl.
  split.
  - apply set_eq. intros rel.
    rewrite elem_of_dom, elem_of_list_to_set, <- In_elem_of.
    destruct (Hl rel) as [H1 H2].
    destruct (in_dec (fun a b : pystr => decide (a = b)) rel (file_list st))
      as [Hin|Hnin].
    + rewrite (H1 Hin). split; [auto|eauto].
    + rewrite (H2 Hnin), lookup_empty. split; [intros [x [=]]|contradiction].
  - exists out0, out. split; [exact Ho0|]. split; [exact Ho|].
    intros rel Hin. now apply (proj1 (Hl rel)).
Qed.

Lemma two_files_headers (req : pystr) :
  let st0 := initial_state req (u "/proj") (u "/out") in
  let s1 := with_file_list st0 [u "a.py"; u "b.py"] in
  node_discover_files Sample.two_files_world st0 = Ok s1
  /\ node_check_headers Sample.two_files_world s1
     = Ok (with_header_issues s1
             (<[u "b.py" := HeaderRules.msg_missing 40 [u "License:"]]> ∅)).
Proof. split; vm_compute; reflexivity. Qed.

Lemma run_agent_two_files (scan : pystr -> list SecretFinding)
    (get_llm : pyval -> Docgen.LLM) (repr_str : pystr -> pystr)
    (req : pystr) (d d' : Disk) (st : AgentState) :
  run_agent scan get_llm repr_str Sample.two_files_world
    (u "/proj") (u "/out") req d = (d', Ok st) ->
  file_list st = [u "a.py"; u "b.py"]
  /\ header_issues st = <[u "b.py" := HeaderRules.msg_missing 40 [u "License:"]]> ∅
  /\ dom (docs st) = list_to_set [u "a.py"; u "b.py"].
Proof.
  unfold run_agent. destruct (two_files_headers req) as [H1 H2].
  cbv zeta in H1, H2. cbv zeta. rewrite H1. cbn [bind]. rewrite H2. cbn [bind].
  destruct (node_scan_secrets scan _ _) as [s3|] eqn:E3; [|discriminate].
  apply node_scan_secrets_Ok in E3 as [m3 ->].
  destruct (node_generate_docs _ _ _ _ _ _) as [d1 [s4|]] eqn:E4; [|discriminate].
  apply generate_docs_dom in E4 as (Hf & Hh & Hd & _).
  intros [= _ <-]. simpl. rewrite Hf, Hh, Hd. auto.
Qed.

(** C5: after [node_check_headers] the header-issues mapping holds
    exactly the files of the list whose check failed (a listed file that
    is absent passed); after [node_generate_docs] the docs mapping has an
    entry for exactly the files of the list, the path of the file's
    document under the output directory.  For a root with two files,
    one complete and one without [License:], whatever the secret scanner
    and the model return, a completed run has one header issue (the second
    file) and two docs; with the stub model the run completes. *)
Theorem stage_mappings_follow_file_list :
  (forall (w : World) (st st' : AgentState),
      node_check_headers w st = Ok st' ->
      exists fs,
        FsRo.new_fs w (Path_of_str (root_dir st)) = Ok fs
        /\ file_list st' = file_list st
        /\ (forall rel msg,
              header_issues st' !! rel = Some msg <->
              In rel (file_list st) /\ issue_of w fs rel = Some msg)
        /\ (forall rel,
              In rel (file_list st) -> header_issues st' !! rel = None ->
              exists src,
                FsRo.read_text w fs (Path_of_str rel) = Ok src
                /\ HeaderRules.ok (HeaderRules.check_header src) = true))
  /\ (forall (get_llm : pyval -> Docgen.LLM) (repr_str : pystr -> pystr)
             (w : World) (st st' : AgentState)
             (config : option (list (pystr * pyval))) (d d' : Disk),
         node_generate_docs get_llm repr_str w st config d = (d', Ok st') ->
         file_list st' = file_list st
         /\ dom (docs st') = list_to_set (file_list st)
         /\ exists out0 out,
              expanduser w (Path_of_str (out_dir st)) = Ok out0
              /\ resolve w false out0 = Ok out
              /\ forall rel, In rel (file_list st) ->
                             docs st' !! rel = Some (doc_target out rel))
  /\ (forall (scan : pystr -> list SecretFinding)
             (get_llm : pyval -> Docgen.LLM) (repr_str : pystr -> pystr)
             (req : pystr) (d d' : Disk) (st : AgentState),
         run_agent scan get_llm repr_str Sample.two_files_world
           (u "/proj") (u "/out") req d = (d', Ok st) ->
         size (header_issues st) = 1%nat
         /\ is_Some (header_issues st !! u "b.py")
         /\ header_issues st !! u "a.py" = None
         /\ size (docs st) = 2%nat
         /\ is_Some (docs st !! u "a.py") /\ is_Some (docs st !! u "b.py"))
  /\ (exists d' st,
         run_agent Sample.no_secrets (fun _ => Sample.stub_llm)
           Sample.plain_repr Sample.two_files_world
           (u "/proj") (u "/out") (u "document it") empty_disk = (d', Ok st)).
Proof.
  split; [exact check_headers_lookup|].
  split.
  { intros get_llm repr_str w st st' config d d' H.
    apply generate_docs_dom in H as (H1 & _ & H2 & H3). auto. }
  split.
  - intros scan get_llm repr_str req d d' st H.
    apply run_agent_two_files in H as (Hf & Hh & Hd).
    assert (Hsize : size (docs st) = 2%nat).
    { rewrite <- size_dom, Hd. vm_compute. reflexivity. }
    assert (Hdocs : forall rel, In rel [u "a.py"; u "b.py"] ->
                                is_Some (docs st !! rel)).
    { intros rel Hin. apply elem_of_dom. rewrite Hd.
      apply elem_of_list_to_set, In_elem_of, Hin. }
    rewrite Hh.
    split; [vm_compute; reflexivity|].
    split; [exists (HeaderRules.msg_missing 40 [u "License:"]);
            vm_compute; reflexivity|].
    split; [vm_compute; reflexivity|].
    split; [exact Hsize|].
    split; apply Hdocs; [now left|right; now left].
  - eexists _, _. vm_compute. reflexivity.
Qed.

Lemma stage_mappings_follow_file_list_witness :
  let w := Sample.two_files_world in
  let s1 := with_file_list Sample.start_state [u "a.py"; u "b.py"] in
  let s2 := with_header_issues s1
              (<[u "b.py" := HeaderRules.msg_missing 40 [u "License:"]]> ∅) in
  node_check_headers w s1 = Ok s2
  /\ exists fs,
       FsRo.new_fs w (Path_of_str (root_dir s1)) = Ok fs
       /\ file_list s2 = file_list s1
       /\ (forall rel msg,
             header_issues s2 !! rel = Some msg <->
             In rel (file_list s1) /\ issue_of w fs rel = Some msg)
       /\ (forall rel,
             In rel (file_list s1) -> header_issues s2 !! rel = None ->
             exists src,
               FsRo.read_text w fs (Path_of_str rel) = Ok src
               /\ HeaderRules.ok (HeaderRules.check_header src) = true).
Proof.
  intros w s1 s2.
  assert (H : node_check_headers w s1 = Ok s2) by (vm_compute; reflexivity).
  split; [exact H|].
  exact (proj1 stage_mappings_follow_file_list w s1 s2 H).
Defined.

End PipelineProperties.

Section HeaderProperties.
Import HeaderRules.

Lemma missing_of_In (head k : pystr) :
  In k (missing_of head) <-> In k REQUIRED_KEYS /\ contains k head = false.
Proof.
  unfold missing_of. rewrite filter_In. now rewrite negb_true_iff.
Qed.

Lemma check_header_missing (source : pystr) (top_lines : Z) :
  missing_of (head_of source top_lines) <> [] ->
  check_header_top source top_lines =
  mkHeaderCheckResult false (missing_of (head_of source top_lines))
    (msg_missing top_lines (missing_of (head_of source top_lines))).
Proof.
  intros H. unfold check_header_top.
  fold (missing_of (head_of source top_lines)).
  destruct (missing_of (head_of source top_lines)); [congruence|reflexivity].
Qed.

Lemma missing_of_single (head k : pystr) :
  In k REQUIRED_KEYS -> contains k head = false ->
  (forall k', In k' REQUIRED_KEYS -> k' <> k -> contains k' head = true) ->
  missing_of head = [k].
Proof.
  intros Hk Hc Hothers. unfold missing_of.
  apply filter_single; auto using REQUIRED_KEYS_NoDup.
  - now rewrite Hc.
  - intros k' Hk' Hne. now rewrite (Hothers k' Hk' Hne).
Qed.

(** C2, as the code has it.  With all six markers in the first 40 lines
    the verdict is decided by the text that follows the first
    [Description:] up to the end of those lines: any non-whitespace
    character there (on the same line or on a later one) gives
    [ok = true] with no missing keys, and only whitespace there gives
    [ok = false] with the empty-description message and no missing keys.
    When some marker is absent the result is [ok = false] and
    [missing_keys] lists exactly the absent markers, all of them; when
    exactly one marker is absent it is the list of that marker. *)
Theorem check_header_verdicts (source : pystr) :
  let head := head_of source 40 in
  let res := check_header source in
  ((forall k, In k REQUIRED_KEYS -> contains k head = true) ->
   forall rest, after_first DESCRIPTION head = Some rest ->
     (existsb nonspace rest = true ->
      res = mkHeaderCheckResult true [] msg_ok)
     /\ (forallb py_isspace rest = true ->
         res = mkHeaderCheckResult false [] msg_empty_description))
  /\ (missing_of head <> [] ->
      res = mkHeaderCheckResult false (missing_of head)
              (msg_missing 40 (missing_of head)))
  /\ (forall k,
        In k (missing_of head) <->
        In k REQUIRED_KEYS /\ contains k head = false)
  /\ (forall k,
        In k REQUIRED_KEYS -> contains k head = false ->
        (forall k', In k' REQUIRED_KEYS -> k' <> k -> contains k' head = true) ->
        ok res = false /\ missing_keys res = [k]).
Proof.
  intros head res. unfold res, check_header. split; [|split; [|split]].
  - intros Hall rest Hrest.
    rewrite check_header_present by (now apply missing_of_nil).
    fold head. split.
    + intros Hn.
      destruct (re_search_nonspace head rest Hrest Hn) as (g & -> & Hg).
      destruct (strip g); [congruence|reflexivity].
    + intros Hs.
      assert (Hfirst : forall r, after_first DESCRIPTION head = Some r ->
                                 forallb py_isspace r = true)
        by (intros r Hr; congruence).
      pose proof (re_search_allspace head Hfirst) as Hg.
      destruct (re_search_description head) as [g|]; [|reflexivity].
      now rewrite (Hg g eq_refl).
  - apply check_header_missing.
  - apply missing_of_In.
  - intros k Hk Hc Hothers.
    pose proof (missing_of_single head k Hk Hc Hothers) as Hm.
    rewrite check_header_missing by (fold head; rewrite Hm; discriminate).
    fold head. rewrite Hm. auto.
Qed.

Lemma check_header_verdicts_witness :
  check_header Sample.complete_source = mkHeaderCheckResult true [] msg_ok
  /\ check_header Sample.trailing_description_source
     = mkHeaderCheckResult false [] msg_empty_description.
Proof.
  assert (Hkeys : forall src : pystr,
            forallb (fun k => contains k (head_of src 40)) REQUIRED_KEYS = true ->
            forall k, In k REQUIRED_KEYS -> contains k (head_of src 40) = true).
  { intros src H k Hk. rewrite forallb_forall in H. now apply H. }
  split.
  - refine (proj1 (proj1 (check_header_verdicts Sample.complete_source)
                     (Hkeys _ _) _ _) _);
      vm_compute; reflexivity.
  - refine (proj2 (proj1 (check_header_verdicts Sample.trailing_description_source)
                     (Hkeys _ _) _ _) _);
      vm_compute; reflexivity.
Defined.

(** C2 as stated fails: a header with all six markers whose
    [Description:] line is blank, followed by the [License:] line, is
    accepted. *)
Lemma blank_description_line_accepted :
  let head := head_of Sample.blank_description_source 40 in
  forallb (fun k => contains k head) REQUIRED_KEYS = true
  /\ description_line_blank head = true
  /\ check_header Sample.blank_description_source
     = mkHeaderCheckResult true [] msg_ok.
Proof. vm_compute. auto. Qed.

End HeaderProperties.

Section DocumentProperties.
Import Docgen.



(** C6 fails for a ceiling below 4: [int(max_chars * 0.25)] is 0 and
    [source[-0:]] is the whole source, so the text put into the prompt is
    the first character, the notice and then all of the source, not the
    notice followed by the last 0 characters. *)
Theorem truncate_source_small_ceiling :
  let source := u "abcdefgh" in
  int_times 3 F0_65 = Ok 1%Z
  /\ int_times 3 F0_25 = Ok 0%Z
  /\ prompt_source source 3 = Ok (u "a" ++ TRUNCATION_NOTE ++ source)
  /\ prompt_source source 3
     <> Ok (firstn 1 source ++ TRUNCATION_NOTE ++ skipn (length source - 0) source).
Proof.
  intros source. split; [reflexivity|]. split; [reflexivity|].
  split; [vm_compute; reflexivity|]. vm_compute. discriminate.
Qed.






(** C10: whatever the text and the path, [_postprocess_markdown] returns
    a text that begins with a top-level heading, so it is not empty and
    not blank, and [generate_doc_for_file] never raises the
    empty-documentation error; a model that answers with the empty string
    still gets a document, the synthesized heading. *)
Theorem empty_generation_unreachable (repr_str : pystr -> pystr) :
  (forall text relpath,
      begins_with_heading (_postprocess_markdown text relpath)
      /\ _postprocess_markdown text relpath <> []
      /\ strip (_postprocess_markdown text relpath) <> [])
  /\ (forall llm relpath source out_dir request t m d,
        snd (generate_doc_for_file_with repr_str llm relpath source out_dir
               request t m d)
        <> Err (RuntimeError EmptyDocumentation))
  /\ (forall llm relpath source out_dir request d,
        snd (generate_doc_for_file repr_str llm relpath source out_dir
               request d)
        <> Err (RuntimeError EmptyDocumentation))
  /\ (exists d res,
        generate_doc_for_file repr_str Reply.empty_llm
          (Path_of_str (u "a.py")) (u "x = 1") (mkPath true [u "out"])
          [] empty_disk = (d, Ok res)
        /\ written d
           = [(mkPath true [u "out"; u "a.py.md"],
               List.map byte_of_N (u "# a.py" ++ [LF]))]).
Proof.
  assert (Hgen : forall llm relpath source out_dir request t m d,
            snd (generate_doc_for_file_with repr_str llm relpath source out_dir
                   request t m d)
            <> Err (RuntimeError EmptyDocumentation)).
  { intros llm relpath source out_dir request t m d.
    unfold generate_doc_for_file_with.
    destruct (_ || _); [discriminate|].
    destruct (prompt_source source m) as [src'|e] eqn:Ep; simpl.
    - destruct (generated_document _ _ _ _ _ _ _) as [[[o data] hint]|e] eqn:E;
        simpl; [discriminate|].
      apply generated_document_not_empty_doc in E. intros [= ->]. discriminate.
    - apply prompt_source_not_empty_doc in Ep. intros [= ->]. discriminate. }
  split.
  { intros text relpath. split; [|split].
    - apply re_match_heading_spec. unfold _postprocess_markdown.
      destruct (re_match_heading (_unwrap_single_fence (strip text))) eqn:E.
      + exact E.
      + reflexivity.
    - apply postprocess_nonempty.
    - apply postprocess_strip_nonempty. }
  split; [exact Hgen|].
  split; [intros; apply Hgen|].
  eexists _, _. split; vm_compute; reflexivity.
Qed.

End DocumentProperties.

Section DiscoveryFacts.
Import GraphAgent.

(** ** Names in the tree and in the file list *)

Lemma node_ind_nested (P : node -> Prop) :
  (forall sz t, P (File sz t)) ->
  (forall t, P (Symlink t)) ->
  (forall es, Forall (fun e => P (snd e)) es -> P (Dir es)) ->
  forall n, P n.
Proof.
  intros HF HS HD. fix IH 1. intros [sz t|es|t]; [apply HF| |apply HS].
  apply HD. induction es as [|[name c] es IHes]; constructor.
  - apply IH.
  - exact IHes.
Qed.

Lemma assoc_In (name : pystr) (es : list (pystr * node)) (c : node) :
  assoc name es = Some c -> exists k, In (k, c) es.
Proof.
  induction es as [|[k v] es IH]; simpl; [discriminate|].
  destruct (str_eqb k name).
  - intros [= ->]. exists k. now left.
  - intros H. destruct (IH H) as [k' Hk']. exists k'. now right.
Qed.

Lemma names_ok_lookup (p : list pystr) :
  forall n m, names_ok n = true -> lookup_node n p = Some m ->
              names_ok m = true.
Proof.
  induction p as [|name p IH]; intros n m Hn; simpl.
  - now intros [= <-].
  - destruct n as [| es |]; try discriminate.
    destruct (assoc name es) as [c|] eqn:E; [|discriminate].
    apply IH. apply assoc_In in E as [k Hk]. simpl in Hn.
    rewrite forallb_forall in Hn. specialize (Hn _ Hk).
    now apply andb_true_iff in Hn as [_ Hn].
Qed.

Lemma rglob_py_nil (here : list pystr) : rglob_py here (Dir []) = [].
Proof. reflexivity. Qed.

Lemma rglob_py_cons (here : list pystr) (name : pystr) (child : node)
    (es : list (pystr * node)) :
  rglob_py here (Dir ((name, child) :: es)) =
  (if endswith (u ".py") name then [here ++ [name]] else [])
  ++ match child with
     | Dir _ => rglob_py (here ++ [name]) child
     | _ => []
     end
  ++ rglob_py here (Dir es).
Proof. reflexivity. Qed.

Lemma rglob_py_slash_free (n : node) :
  names_ok n = true ->
  forall here ps,
    Forall (fun x => slash_free x = true) here ->
    In ps (rglob_py here n) ->
    Forall (fun x => slash_free x = true) ps.
Proof.
  induction n as [sz t|t|es IHes] using node_ind_nested;
    intros Hn here ps Hh Hin; try destruct Hin.
  induction es as [|[name child] es IH]; [destruct Hin|].
  rewrite rglob_py_cons in Hin.
  inversion IHes as [|? ? Hchild Hrest]; subst. simpl in Hchild.
  simpl in Hn. apply andb_true_iff in Hn as [Hnc Hes].
  apply andb_true_iff in Hnc as [Hname Hc].
  assert (Hhere : Forall (fun x => slash_free x = true) (here ++ [name])).
  { apply Forall_app. split; [exact Hh|]. now constructor. }
  apply in_app_or in Hin as [Hin|Hin].
  - destruct (endswith (u ".py") name); [|destruct Hin].
    destruct Hin as [<-|[]]. exact Hhere.
  - apply in_app_or in Hin as [Hin|Hin].
    + destruct child; try destruct Hin. eapply Hchild; eauto.
    + apply IH; auto.
Qed.

Lemma Forall_removelast {A} (P : A -> Prop) (l : list A) :
  Forall P l -> Forall P (removelast l).
Proof.
  induction 1 as [|x l Hx Hl IH]; simpl; [constructor|].
  destruct l; [constructor|]. constructor; auto.
Qed.

Lemma joinrealpath_slash_free (w : World) (strict : bool) (fuel : nat) :
  names_ok (tree w) = true ->
  forall rest path out,
    Forall (fun x => slash_free x = true) path ->
    Forall (fun x => slash_free x = true) rest ->
    joinrealpath w strict fuel path rest = Ok out ->
    Forall (fun x => slash_free x = true) out.
Proof.
  intros Hw. induction fuel as [|fuel IHf]; [discriminate|].
  induction rest as [|name rest IH]; intros path out Hp Hr.
  - rewrite joinrealpath_nil. now intros [= <-].
  - inversion Hr as [|? ? Hname Hrest]; subst.
    rewrite joinrealpath_cons.
    destruct (is_nil name || str_eqb name (u ".")); [apply IH; assumption|].
    destruct (str_eqb name (u "..")).
    { apply IH; [|assumption]. now apply Forall_removelast. }
    assert (Hnew : Forall (fun x => slash_free x = true) (path ++ [name])).
    { apply Forall_app. split; [exact Hp|]. now constructor. }
    destruct (lookup_node (tree w) (path ++ [name])) as [[| |t]|] eqn:E.
    + apply IH; assumption.
    + apply IH; assumption.
    + apply (names_ok_lookup _ _ _ Hw) in E. simpl in E.
      assert (Ht : Forall (fun x => slash_free x = true) (parts t))
        by (apply List.Forall_forall; now rewrite forallb_forall in E).
      destruct (joinrealpath w strict fuel _ (parts t)) as [path'|] eqn:Er;
        [|discriminate].
      apply IH; [|assumption]. eapply IHf; [| |exact Er]; [|assumption].
      destruct (absolute t); [constructor|exact Hp].
    + destruct strict; [discriminate|]. apply IH; assumption.
Qed.

Lemma clean_normal (w : World) (ps : list pystr) :
  clean w ps -> Forall (fun x => normal_name x = true) ps.
Proof.
  induction 1 as [|path name _ IH Hn _]; [constructor|].
  apply Forall_app. split; [exact IH|]. now constructor.
Qed.

(** ** Strings and paths *)

Lemma split_char_from_run (sep : N) (x cur s : pystr) :
  forallb (fun c => negb (c =? sep)) x = true ->
  split_char_from sep cur (x ++ s) = split_char_from sep (rev x ++ cur) s.
Proof.
  revert cur. induction x as [|c x IH]; intros cur H; [reflexivity|].
  simpl in H. apply andb_true_iff in H as [Hc Hx].
  apply negb_true_iff in Hc. simpl. unfold char_eqb. rewrite Hc, (IH _ Hx).
  now rewrite <- app_assoc.
Qed.

Lemma split_char_from_join (sep : N) (ls : list pystr) (cur : pystr) :
  ls <> [] ->
  Forall (fun x => forallb (fun c => negb (c =? sep)) x = true) ls ->
  split_char_from sep cur (str_join [sep] ls) = (rev cur ++ hd [] ls) :: tl ls.
Proof.
  revert cur. induction ls as [|x ls IH]; [congruence|]. intros cur _ Hf.
  inversion Hf as [|? ? Hx Hf']; subst. destruct ls as [|y ls].
  - simpl. rewrite <- (app_nil_r x) at 1.
    rewrite (split_char_from_run sep x cur [] Hx). simpl.
    now rewrite rev_app_distr, rev_involutive.
  - rewrite str_join_cons2, (split_char_from_run sep x cur _ Hx).
    simpl app. simpl split_char_from. unfold char_eqb. rewrite N.eqb_refl.
    rewrite IH by (auto; discriminate).
    now rewrite rev_app_distr, rev_involutive.
Qed.

Lemma split_char_from_sep_free (sep : N) (s : pystr) :
  forall cur,
    forallb (fun c => negb (c =? sep)) cur = true ->
    Forall (fun x => forallb (fun c => negb (c =? sep)) x = true)
           (split_char_from sep cur s).
Proof.
  induction s as [|c s IH]; intros cur Hc; simpl.
  - constructor; [|constructor]. now rewrite forallb_rev.
  - unfold char_eqb. destruct (c =? sep) eqn:E.
    + constructor; [now rewrite forallb_rev|]. now apply IH.
    + apply IH. simpl. now rewrite E, Hc.
Qed.

Lemma Path_of_str_slash_free (s : pystr) :
  Forall (fun x => slash_free x = true) (parts (Path_of_str s)).
Proof.
  unfold Path_of_str. simpl. apply List.Forall_forall. intros x Hx.
  apply filter_In in Hx as [Hx _].
  pose proof (split_char_from_sep_free SLASH s [] eq_refl) as H.
  rewrite List.Forall_forall in H. now apply H.
Qed.

Lemma filter_all {A} (f : A -> bool) (l : list A) :
  (forall y, In y l -> f y = true) -> List.filter f l = l.
Proof.
  induction l as [|y l IH]; intros H; [reflexivity|]. simpl.
  rewrite (H y) by now left. f_equal. apply IH. intros z Hz. apply H. now right.
Qed.

Lemma Path_of_str_path_str (P : Path) :
  absolute P = false ->
  Forall (fun x => normal_name x = true) (parts P) ->
  Forall (fun x => slash_free x = true) (parts P) ->
  Path_of_str (path_str P) = P.
Proof.
  destruct P as [a ps]. cbn [absolute parts]. intros -> Hn Hs.
  unfold path_str. cbn [absolute parts].
  destruct ps as [|x ps]; [reflexivity|].
  unfold Path_of_str, split_char.
  rewrite split_char_from_join by (auto; discriminate).
  cbn [hd tl rev app]. f_equal.
  - inversion Hn as [|? ? Hx _]; subst. inversion Hs as [|? ? Hsx _]; subst.
    destruct x as [|c x]; [discriminate|]. simpl in Hsx.
    apply andb_true_iff in Hsx as [Hc _]. apply negb_true_iff in Hc.
    rewrite str_join_cons_tail. unfold startswith. cbn [after_prefix app].
    unfold char_eqb. rewrite N.eqb_sym, Hc. reflexivity.
  - assert (Hall : forall y, In y (x :: ps) -> is_real_segment y = true).
    { intros y Hy. rewrite List.Forall_forall in Hn. specialize (Hn y Hy).
      unfold normal_name in Hn. apply andb_true_iff in Hn as [Hn _].
      unfold is_real_segment. apply negb_true_iff in Hn.
      apply orb_false_iff in Hn as [H1 H2]. now rewrite H1, H2. }
    now apply filter_all.
Qed.

Lemma relpaths_In (w : World) (fs : FsRo.ReadOnlySandboxFS) (l : list Path) :
  forall rs,
    relpaths w fs l = Ok rs ->
    forall rel, In rel rs ->
      exists f P, In f l /\ FsRo.relpath w fs f = Ok P /\ rel = path_str P.
Proof.
  induction l as [|f l IH]; intros rs H rel Hin; simpl in H.
  - injection H as <-. destruct Hin.
  - apply bind_Ok in H as (P & HP & H). apply bind_Ok in H as (rs' & Hrs & [= <-]).
    destruct Hin as [<-|Hin].
    + exists f, P. split; [now left|split; [exact HP|reflexivity]].
    + destruct (IH _ Hrs rel Hin) as (f' & P' & Hf & HP' & ->).
      exists f', P'. split; [now right|split; [exact HP'|reflexivity]].
Qed.

Lemma list_python_files_parts (w : World) (fs : FsRo.ReadOnlySandboxFS) (f : Path) :
  names_ok (tree w) = true ->
  Forall (fun x => slash_free x = true) (parts (FsRo.root_dir fs)) ->
  In f (FsRo.list_python_files w fs) ->
  Forall (fun x => slash_free x = true) (parts f).
Proof.
  intros Hw Hroot. unfold FsRo.list_python_files.
  destruct (lookup_node (tree w) (parts (FsRo.root_dir fs))) as [n|] eqn:E;
    [|intros []].
  intros H. apply In_sorted in H. apply in_map_iff in H as (ps & <- & Hps).
  simpl. apply Forall_app. split; [exact Hroot|].
  eapply rglob_py_slash_free; [|constructor|exact Hps].
  eapply names_ok_lookup; eauto.
Qed.

Lemma new_fs_slash_free (w : World) (root : pystr) (fs : FsRo.ReadOnlySandboxFS) :
  names_ok (tree w) = true ->
  startswith [SLASH] root = true ->
  FsRo.new_fs w (Path_of_str root) = Ok fs ->
  Forall (fun x => slash_free x = true) (parts (FsRo.root_dir fs)).
Proof.
  intros Hw Habs. unfold FsRo.new_fs.
  rewrite expanduser_absolute by exact Habs. simpl bind.
  destruct (resolve w true (Path_of_str root)) as [r|] eqn:E; [|discriminate].
  simpl. intros [= <-]. simpl. apply resolve_Ok in E as [_ E].
  eapply joinrealpath_slash_free; [exact Hw| | |exact E].
  - change (absolute (Path_of_str root)) with (startswith [SLASH] root).
    rewrite Habs. constructor.
  - apply Path_of_str_slash_free.
Qed.

(** The entries of the file list that [node_discover_files] produces
    round-trip as strings: for a tree whose names hold no slash and an
    absolute root, resolving an entry under the root and making the
    result relative again gives the entry back. *)
Lemma discovered_entries_roundtrip (w : World) (st st' : AgentState) :
  names_ok (tree w) = true ->
  startswith [SLASH] (root_dir st) = true ->
  node_discover_files w st = Ok st' ->
  exists fs,
    FsRo.new_fs w (Path_of_str (root_dir st)) = Ok fs
    /\ forall rel, In rel (file_list st') -> reread w fs rel = Ok rel.
Proof.
  intros Hw Habs H. unfold node_discover_files in H.
  apply bind_Ok in H as (fs & Hfs & H). apply bind_Ok in H as (l & Hl & [= <-]).
  exists fs. split; [exact Hfs|]. simpl. intros rel Hin.
  destruct (relpaths_In w fs _ _ Hl rel Hin) as (f & P & Hf & HP & ->).
  pose proof (new_fs_absolute _ _ _ Hfs) as Hroot.
  pose proof (new_fs_slash_free _ _ _ Hw Habs Hfs) as Hrs.
  assert (Hfa : absolute f = true)
    by (rewrite (list_python_files_absolute w fs f Hf); exact Hroot).
  pose proof (list_python_files_parts w fs f Hw Hrs Hf) as Hfs'.
  destruct (relpath_Ok w fs f P Hfa HP) as (x & Hx & Hrel).
  destruct (resolve_clean w false f x Hfa Hx) as [_ Hxc].
  apply resolve_Ok in Hx as [_ Hj]. rewrite Hfa in Hj.
  pose proof (joinrealpath_slash_free w false _ Hw _ _ _ (List.Forall_nil _) Hfs' Hj)
    as Hxs.
  apply relative_to_Some in Hrel as (_ & HPa & Hparts).
  rewrite Hparts in Hxs. apply Forall_app in Hxs as [_ HPs].
  apply clean_normal in Hxc. rewrite Hparts in Hxc.
  apply Forall_app in Hxc as [_ HPn].
  unfold reread. rewrite (Path_of_str_path_str P HPa HPn HPs).
  pose proof (relpath_roundtrip w fs f P Hroot Hfa HP) as Hrt.
  destruct (FsRo._resolve_under_root w fs P) as [r|]; [|discriminate].
  simpl in *. now rewrite Hrt.
Qed.

End DiscoveryFacts.

Section RoundTripProperties.
Import FsRo.



End RoundTripProperties.

Section TruncationFacts.
Import Docgen.



End TruncationFacts.
